(** * The user-management command line of [app/cli.py]

    A shallow embedding of the six Typer commands ([initialize], [get_user],
    [get_all_users], [change_email], [create_user], [delete_user]) over a
    model of the SQLModel session they talk to, and the properties of the
    specification checked against it.

    Layout: the [User] rows and the store (the single table, its key and its
    two UNIQUE columns), SQL [LIKE], statements, the session as a unit of
    work over a small heap of Python objects, the state-and-exception monad
    the commands run in, the commands themselves, and then the theorems. *)

From Stdlib Require Import ZArith Ascii String List Lia Bool.
From stdpp Require Import base tactics option list strings.

Local Open Scope string_scope.
Local Open Scope list_scope.

(** ** Strings *)

(** A string of the model is a sequence of characters, an [ascii] being a
    character up to U+00FF.  What the store measures in bytes is measured
    by [byte_length], the length of the UTF-8 encoding: one byte for a
    character below U+0080, two for the others. *)
Fixpoint byte_length (s : string) : N :=
  match s with
  | EmptyString => 0
  | String c s' =>
      (if (N_of_ascii c <? 128)%N then 1 else 2) + byte_length s'
  end%N.

Definition backslash : ascii := "092"%char.

(** ** The [User] entity *)

(** Modelled from the spec: [app/models.py] is not part of the sources.  The
    spec gives [User] the attributes [id] (a store-assigned surrogate key,
    absent until the row is inserted), [username], [email] and [password]
    (the stored hash). *)
Record User := mkUser {
  id : option nat;
  username : string;
  email : string;
  password : string
}.

#[global] Instance User_eq_dec : EqDecision User.
Proof. solve_decision. Defined.

Definition with_id (i : nat) (u : User) : User :=
  mkUser (Some i) (username u) (email u) (password u).

Definition with_email (e : string) (u : User) : User :=
  mkUser (id u) (username u) e (password u).

(** Python's exceptions that reach the commands.  [IntegrityError] is
    [sqlalchemy.exc.IntegrityError]; [StoreError] stands for every other
    failure of a statement (the spec's name for them): the store's
    [OperationalError] for a statement it refuses, the driver's
    [OverflowError] for a number it cannot pass on. *)
Inductive Exn := IntegrityError | StoreError.

#[global] Instance Exn_eq_dec : EqDecision Exn.
Proof. solve_decision. Defined.

(** ** What depends on the configured database *)

(** The connection target is configuration, so what differs between SQL
    back ends is kept abstract: how [LIKE] compares two ordinary characters
    (its collation), whether the backslash is the escape character of a
    [LIKE] without an ESCAPE clause, the longest pattern in bytes that
    [LIKE] takes (a thousand bytes at least), and what a statement with a
    negative [OFFSET] or [LIMIT] does to the rows it would otherwise page
    through. *)
Class Backend := {
  like_char_eq : ascii -> ascii -> bool;
  like_char_eq_refl : forall c, like_char_eq c c = true;
  like_escape : bool;
  like_max : N;
  like_max_roomy : (1000 <= like_max)%N;
  negative_offset : Z -> list User -> Exn + list User;
  negative_limit : Z -> list User -> Exn + list User
}.

(** Lower-casing of the 26 ASCII letters. *)
Definition ascii_lower (c : ascii) : ascii :=
  let n := nat_of_ascii c in
  if (65 <=? n)%nat && (n <=? 90)%nat then ascii_of_nat (n + 32) else c.

(** SQLite: [LIKE] ignores the case of ASCII letters, has no escape
    character of its own and refuses a pattern of more than 50000 bytes; a
    negative [OFFSET] skips nothing and a negative [LIMIT] means no
    limit. *)
Definition sqlite : Backend := {|
  like_char_eq a b := Ascii.eqb (ascii_lower a) (ascii_lower b);
  like_char_eq_refl c := Ascii.eqb_refl (ascii_lower c);
  like_escape := false;
  like_max := 50000;
  like_max_roomy := ltac:(lia);
  negative_offset _ rows := inr rows;
  negative_limit _ rows := inr rows
|}.

(** PostgreSQL: [LIKE] compares characters exactly, reads the backslash as
    its escape character and takes any pattern a text value can hold; a
    negative [LIMIT] or [OFFSET] is refused. *)
Definition postgresql : Backend := {|
  like_char_eq := Ascii.eqb;
  like_char_eq_refl := Ascii.eqb_refl;
  like_escape := true;
  like_max := 1073741823;
  like_max_roomy := ltac:(lia);
  negative_offset _ _ := inl StoreError;
  negative_limit _ _ := inl StoreError
|}.

(** ** SQL [LIKE] *)

Section Like.
Context `{Backend}.

(** [escapes c]: [c] is the escape character of this back end's [LIKE]. *)
Definition escapes (c : ascii) : bool := like_escape && Ascii.eqb c backslash.

(** [like p s]: the string [s] matches the pattern [p]; ["%"] stands for any
    run of characters, ["_"] for any one character, the escape character
    (where there is one) makes the character behind it stand for itself,
    and any other character stands for itself; characters are compared up
    to the collation.  A pattern that ends in a lone escape character
    matches nothing here; no pattern of [cli.py] ends so.  No ESCAPE clause
    is involved: SQLAlchemy's [contains] adds one only when asked to
    ([autoescape], [escape]). *)
Fixpoint like (p : string) : string -> bool :=
  match p with
  | EmptyString => fun s => match s with EmptyString => true | _ => false end
  | String c p' =>
      if Ascii.eqb c "%" then
        fix any (s : string) : bool :=
          like p' s || match s with EmptyString => false | String _ s' => any s' end
      else if Ascii.eqb c "_" then fun s =>
        match s with
        | EmptyString => false
        | String _ s' => like p' s'
        end
      else if escapes c then
        match p' with
        | EmptyString => fun _ => false
        | String c' p'' => fun s =>
            match s with
            | EmptyString => false
            | String d s' => like_char_eq c' d && like p'' s'
            end
        end
      else fun s =>
        match s with
        | EmptyString => false
        | String d s' => like_char_eq c d && like p' s'
        end
  end.

(** SQLAlchemy renders [column.contains(q)] as [column LIKE '%' || q || '%'];
    [cli.py] passes [q] as it came from the command line, so a ["%"] or a
    ["_"] in it reaches [LIKE] as a wildcard. *)
Definition pattern_of (q : string) : string := "%" +:+ q +:+ "%".

Definition contains (q s : string) : bool := like (pattern_of q) s.

(** The store takes the pattern: it is not longer than [LIKE] allows. *)
Definition like_accepts (p : string) : bool := (byte_length p <=? like_max)%N.

(** [query_ok q]: the pattern [contains] makes of [q] is one the store
    takes. *)
Definition query_ok (q : string) : bool := like_accepts (pattern_of q).

(** [escape_free q]: no character of [q] is the escape character. *)
Fixpoint escape_free (q : string) : bool :=
  match q with
  | EmptyString => true
  | String c q' => negb (escapes c) && escape_free q'
  end.

End Like.

(** ** The store: one table of [User] rows *)

(** Modelled from the spec: the table is declared in [app/models.py], which
    is not part of the sources.  The spec gives it a surrogate key [id] and
    UNIQUE [username] and [email] columns.  Rows are kept in stored order
    (the order a scan without ORDER BY returns them in); an inserted row
    gets a key above every key in use and goes last. *)
Definition next_id (rows : list User) : nat :=
  S (fold_right (fun r m => Nat.max (default 0 (id r)) m) 0 rows).

(** [clashes u r]: the row [r] forbids [u] under one of the UNIQUE columns. *)
Definition clashes (u r : User) : bool :=
  String.eqb (username r) (username u) || String.eqb (email r) (email u).

Definition same_key (key : option nat) (r : User) : bool :=
  bool_decide (id r = key).

(** INSERT: refused when a row clashes; the new row with its key otherwise. *)
Definition insert_row (u : User) (rows : list User) : Exn + (User * list User) :=
  if existsb (clashes u) rows then inl IntegrityError
  else let u' := with_id (next_id rows) u in inr (u', rows ++ [u']).

(** UPDATE ... WHERE id = key: refused when another row clashes. *)
Definition update_row (key : option nat) (u : User) (rows : list User)
  : Exn + list User :=
  if existsb (fun r => negb (same_key key r) && clashes u r) rows
  then inl IntegrityError
  else inr (map (fun r => if same_key key r then u else r) rows).

(** DELETE ... WHERE id = key. *)
Definition delete_row (key : option nat) (rows : list User) : list User :=
  List.filter (fun r => negb (same_key key r)) rows.

(** ** Statements: [select(User)] with [where], [offset] and [limit] *)

Inductive Column := Username | Email.

Definition column (c : Column) (r : User) : string :=
  match c with Username => username r | Email => email r end.

(** [Eq c v] is [User.c == v], [Contains c v] is [User.c.contains(v)] and
    [Or a b] is [a | b]. *)
Inductive Cond :=
| Eq (c : Column) (v : string)
| Contains (c : Column) (v : string)
| Or (a b : Cond).

Record Select := mkSelect {
  where_clause : option Cond;
  offset_clause : option Z;
  limit_clause : option Z
}.

Definition select_User : Select := mkSelect None None None.

Definition where_ (c : Cond) (s : Select) : Select :=
  mkSelect (Some c) (offset_clause s) (limit_clause s).

Definition offset (n : Z) (s : Select) : Select :=
  mkSelect (where_clause s) (Some n) (limit_clause s).

Definition limit (n : Z) (s : Select) : Select :=
  mkSelect (where_clause s) (offset_clause s) (Some n).

(** A number the driver can pass to the store: a signed integer of 64
    bits. *)
Definition fits_int64 (n : Z) : bool :=
  (- 9223372036854775808 <=? n)%Z && (n <? 9223372036854775808)%Z.

Definition bindable (n : option Z) : bool :=
  match n with None => true | Some n => fits_int64 n end.

(** A count: a number that is not negative and fits in 64 bits. *)
Definition is_count (n : Z) : Prop := (0 <= n < 9223372036854775808)%Z.

Section Store.
Context `{Backend}.

(** Whether a row satisfies a condition.  A [LIKE] with a pattern the
    store does not take fails when it is tried on a row.  In the statements
    of [cli.py] the two sides of an [Or] carry the same pattern, so which
    side is tried first does not show. *)
Fixpoint holds (c : Cond) (r : User) : Exn + bool :=
  match c with
  | Eq col v => inr (String.eqb (column col r) v)
  | Contains col v =>
      if like_accepts (pattern_of v) then inr (contains v (column col r))
      else inl StoreError
  | Or a b =>
      match holds a r with
      | inl e => inl e
      | inr true => inr true
      | inr false => holds b r
      end
  end.

(** The rows that satisfy a condition, in stored order; the scan stops at
    the first row the condition fails on. *)
Fixpoint scan (c : Cond) (rows : list User) : Exn + list User :=
  match rows with
  | [] => inr []
  | r :: rows' =>
      match holds c r with
      | inl e => inl e
      | inr b =>
          match scan c rows' with
          | inl e => inl e
          | inr hits => inr (if b then r :: hits else hits)
          end
      end
  end.

Definition apply_where (c : option Cond) (rows : list User) : Exn + list User :=
  match c with None => inr rows | Some c => scan c rows end.

Definition apply_offset (n : option Z) (rows : list User) : Exn + list User :=
  match n with
  | None => inr rows
  | Some n => if (n <? 0)%Z then negative_offset n rows
              else inr (skipn (Z.to_nat n) rows)
  end.

Definition apply_limit (n : option Z) (rows : list User) : Exn + list User :=
  match n with
  | None => inr rows
  | Some n => if (n <? 0)%Z then negative_limit n rows
              else inr (firstn (Z.to_nat n) rows)
  end.

(** The rows a statement returns from a table, in stored order.  The
    numbers of the statement are bound first: one that does not fit in 64
    bits stops the statement before the store sees it. *)
Definition run_select (s : Select) (rows : list User) : Exn + list User :=
  if bindable (offset_clause s) && bindable (limit_clause s) then
    match apply_where (where_clause s) rows with
    | inl e => inl e
    | inr hits =>
        match apply_offset (offset_clause s) hits with
        | inl e => inl e
        | inr rest => apply_limit (limit_clause s) rest
        end
    end
  else inl StoreError.

End Store.

(** ** The session: a unit of work over the objects a command holds *)

(** The life cycle of a mapped object.  A persistent or deleted object
    remembers the row it stands for, as last loaded or written. *)
Inductive ObjState :=
| Transient
| Pending
| Persistent (row : User)
| Deleted (row : User)
| Detached.

Record Obj := mkObj { attrs : User; state : ObjState }.

(** What a command prints: a line of text, or a [User] object (whose
    rendering belongs to [app/models.py]). *)
Inductive Out := OutLine (s : string) | OutUser (u : User).

(** The calls a command makes on the database, in order. *)
Inductive Call :=
| CallDropAll | CallCreateTables
| CallAdd | CallDelete | CallCommit | CallRollback | CallRefresh | CallExec.

(** The table is the durable state; the heap holds the [User] objects of the
    running command, a reference being an index into it. *)
Record World := mkWorld {
  table : list User;
  heap : list Obj;
  stdout : list Out;
  calls : list Call
}.

Definition set_table (t : list User) (w : World) : World :=
  mkWorld t (heap w) (stdout w) (calls w).

Definition set_heap (h : list Obj) (w : World) : World :=
  mkWorld (table w) h (stdout w) (calls w).

Definition emit (o : Out) (w : World) : World :=
  mkWorld (table w) (heap w) (stdout w ++ [o]) (calls w).

Definition log (c : Call) (w : World) : World :=
  mkWorld (table w) (heap w) (stdout w) (calls w ++ [c]).

(** What the flush does for one object: INSERT a pending one, UPDATE a
    persistent one whose attributes differ from its row, DELETE a deleted
    one.  The result is the table and the object afterwards. *)
Definition flush_obj (o : Obj) (t : list User) : Exn + (list User * Obj) :=
  match state o with
  | Pending =>
      match insert_row (attrs o) t with
      | inl e => inl e
      | inr (u, t') => inr (t', mkObj u (Persistent u))
      end
  | Persistent row =>
      if decide (attrs o = row) then inr (t, o)
      else match update_row (id row) (attrs o) t with
           | inl e => inl e
           | inr t' => inr (t', mkObj (attrs o) (Persistent (attrs o)))
           end
  | Deleted row => inr (delete_row (id row) t, mkObj (attrs o) Detached)
  | Transient | Detached => inr (t, o)
  end.

(** The flush walks the session's objects.  Each command of [cli.py] changes
    at most one object, so the order of the walk is not observable. *)
Fixpoint flush (h : list Obj) (t : list User) : Exn + (list User * list Obj) :=
  match h with
  | [] => inr (t, [])
  | o :: h' =>
      match flush_obj o t with
      | inl e => inl e
      | inr (t', o') =>
          match flush h' t' with
          | inl e => inl e
          | inr (t'', h'') => inr (t'', o' :: h'')
          end
      end
  end.

(** Rolling back: a pending object is dropped from the session, a persistent
    or deleted one is again what its row says. *)
Definition rollback_obj (o : Obj) : Obj :=
  match state o with
  | Pending => mkObj (attrs o) Transient
  | Persistent row | Deleted row => mkObj row (Persistent row)
  | Transient | Detached => o
  end.

(** ** The monad of commands: state, output and exceptions *)

Inductive Result (A : Type) := Returned (a : A) | Raised (e : Exn).
Arguments Returned {A} a.
Arguments Raised {A} e.

Definition M (A : Type) : Type := World -> Result A * World.

#[global] Instance M_ret : MRet M := fun A a w => (Returned a, w).

#[global] Instance M_bind : MBind M := fun A B f m w =>
  match m w with
  | (Returned a, w') => f a w'
  | (Raised e, w') => (Raised e, w')
  end.

Definition raise {A} (e : Exn) : M A := fun w => (Raised e, w).

Definition get_world : M World := fun w => (Returned w, w).

Definition modify (f : World -> World) : M unit := fun w => (Returned tt, f w).

(** [try: body / except IntegrityError: handler / else: orelse]. *)
Definition try_except_else {A B} (body : M A) (handler : M B) (orelse : A -> M B)
  : M B := fun w =>
  match body w with
  | (Returned a, w') => orelse a w'
  | (Raised IntegrityError, w') => handler w'
  | (Raised e, w') => (Raised e, w')
  end.

(** [for x in xs: body x]. *)
Fixpoint for_each {A} (xs : list A) (body : A -> M unit) : M unit :=
  match xs with
  | [] => mret tt
  | x :: xs' => body x ;; for_each xs' body
  end.

(** [print(text)]. *)
Definition print_line (s : string) : M unit := modify (emit (OutLine s)).

(** ** Objects: construction, attributes, printing *)

Definition alloc (o : Obj) : M nat := fun w =>
  (Returned (length (heap w)), set_heap (heap w ++ [o]) w).

Definition get_obj (r : nat) : M Obj := fun w =>
  match heap w !! r with
  | Some o => (Returned o, w)
  | None => (Raised StoreError, w)
  end.

Definition set_obj (r : nat) (o : Obj) : M unit :=
  modify (fun w => set_heap (<[r := o]> (heap w)) w).

(** [user.username], [user.email], ...: the object's attributes. *)
Definition attr (r : nat) : M User := o ← get_obj r; mret (attrs o).

(** [user.email = e]. *)
Definition set_email (r : nat) (e : string) : M unit :=
  o ← get_obj r; set_obj r (mkObj (with_email e (attrs o)) (state o)).

(** [print(user)]. *)
Definition print_obj (r : nat) : M unit :=
  u ← attr r; modify (emit (OutUser u)).

(** ** The session's methods *)

(** [db.add(obj)]: a transient object becomes pending; one that is already
    in the session stays as it is. *)
Definition add (r : nat) : M unit :=
  modify (log CallAdd) ;;
  o ← get_obj r;
  match state o with
  | Transient => set_obj r (mkObj (attrs o) Pending)
  | Detached => raise StoreError
  | Pending | Persistent _ | Deleted _ => mret tt
  end.

(** [db.delete(obj)]. *)
Definition delete (r : nat) : M unit :=
  modify (log CallDelete) ;;
  o ← get_obj r;
  match state o with
  | Persistent row => set_obj r (mkObj (attrs o) (Deleted row))
  | Pending => set_obj r (mkObj (attrs o) Transient)
  | Deleted _ => mret tt
  | Transient | Detached => raise StoreError
  end.

(** [db.commit()]: flush, then make the result durable.  When the store
    refuses a statement the table is what it was and the exception is
    raised; the session keeps its objects until [rollback]. *)
Definition commit : M unit :=
  modify (log CallCommit) ;;
  w ← get_world;
  match flush (heap w) (table w) with
  | inl e => raise e
  | inr (t, h) => modify (fun w => set_heap h (set_table t w))
  end.

(** [db.rollback()]. *)
Definition rollback : M unit :=
  modify (log CallRollback) ;;
  modify (fun w => set_heap (map rollback_obj (heap w)) w).

(** [db.refresh(obj)]: load the object's row again. *)
Definition refresh (r : nat) : M unit :=
  modify (log CallRefresh) ;;
  o ← get_obj r;
  w ← get_world;
  match state o with
  | Persistent row =>
      match find (same_key (id row)) (table w) with
      | Some row' => set_obj r (mkObj row' (Persistent row'))
      | None => raise StoreError
      end
  | _ => raise StoreError
  end.

(** [.first()] and [.all()] on the result of a query: the rows become
    persistent objects of the session.  Every query of [cli.py] is the first
    call on its session, so no row is loaded twice and nothing is pending
    when it runs. *)
Definition first (rows : list User) : M (option nat) :=
  match rows with
  | [] => mret None
  | row :: _ => r ← alloc (mkObj row (Persistent row)); mret (Some r)
  end.

Fixpoint all (rows : list User) : M (list nat) :=
  match rows with
  | [] => mret []
  | row :: rows' =>
      r ← alloc (mkObj row (Persistent row));
      rs ← all rows';
      mret (r :: rs)
  end.

(** ** [app/database.py] *)

(** Modelled from the spec: [app/database.py] is not part of the sources.
    [get_session] gives one command a session of its own and releases it on
    every exit path, dropping whatever was not committed; [drop_all] and
    [create_db_and_tables] are the two halves of the spec's [reset_schema]:
    the first removes the table with its rows, the second creates what is
    missing and leaves an existing table as it is. *)
Definition get_session {A} (body : M A) : M A := fun w =>
  let '(res, w') := body (set_heap [] w) in (res, set_heap [] w').

Definition drop_all : M unit :=
  modify (log CallDropAll) ;; modify (set_table []).

Definition create_db_and_tables : M unit :=
  modify (log CallCreateTables).

(** The text [f"Updated {user.username}'s email to {user.email}"]. *)
Definition updated_message (user : User) : string :=
  "Updated " +:+ username user +:+ "'s email to " +:+ email user.

Section Commands.
Context `{Backend}.

(** The hash [User]'s constructor stores in place of the password it is
    given; [app/models.py], which chooses it, is not part of the sources. *)
Variable hash_password : string -> string.

(** [db.exec(stmt)]. *)
Definition exec (stmt : Select) : M (list User) :=
  modify (log CallExec) ;;
  w ← get_world;
  match run_select stmt (table w) with
  | inl e => raise e
  | inr rows => mret rows
  end.

(** Modelled from the spec: [User(username, email, password)] of
    [app/models.py], a new object with no [id] that holds the hash of the
    password. *)
Definition User_new (username email password : string) : M nat :=
  alloc (mkObj (mkUser None username email (hash_password password)) Transient).

(** ** The commands of [cli.py] *)

Definition initialize : M unit :=
  get_session (
    drop_all ;;
    create_db_and_tables ;;
    bob ← User_new "bob" "bob@mail.com" "bobpass";
    add bob ;;
    commit ;;
    refresh bob ;;
    print_line "Database Initialized").

Definition get_user (query : string) : M unit :=
  get_session (
    let stmt := where_ (Or (Contains Username query) (Contains Email query))
                       select_User in
    users ← exec stmt ≫= all;
    match users with
    | [] => print_line "No users found"
    | _ => for_each users print_obj
    end).

Definition get_all_users (limit_opt offset_opt : option Z) : M unit :=
  let limit_arg := default 10%Z limit_opt in
  let offset_arg := default 0%Z offset_opt in
  get_session (
    let stmt := limit limit_arg (offset offset_arg select_User) in
    users ← exec stmt ≫= all;
    match users with
    | [] => print_line "No users found"
    | _ => for_each users print_obj
    end).

Definition change_email (username new_email : string) : M unit :=
  get_session (
    user ← exec (where_ (Eq Username username) select_User) ≫= first;
    match user with
    | None => print_line (username +:+ " not found! Unable to update email.")
    | Some user =>
        set_email user new_email ;;
        add user ;;
        commit ;;
        u ← attr user;
        print_line (updated_message u)
    end).

Definition create_user (username email password : string) : M unit :=
  get_session (
    newuser ← User_new username email password;
    try_except_else
      (add newuser ;; commit)
      (rollback ;; print_line "Username or email already taken!")
      (fun _ => print_obj newuser)).

Definition delete_user (username : string) : M unit :=
  get_session (
    user ← exec (where_ (Eq Username username) select_User) ≫= first;
    match user with
    | None => print_line (username +:+ " not found! Unable to delete user.")
    | Some user =>
        delete user ;;
        commit ;;
        print_line (username +:+ " deleted")
    end).

End Commands.

(** ** Running a command *)

(** The command line: one constructor per subcommand of the Typer app. *)
Inductive Command :=
| Initialize
| GetUser (query : string)
| GetAllUsers (limit_opt offset_opt : option Z)
| ChangeEmail (username new_email : string)
| CreateUser (username email password : string)
| DeleteUser (username : string).

(** What one invocation leaves behind: how the command ended, the table,
    the lines printed and the calls made on the database. *)
Record Outcome := mkOutcome {
  result : Result unit;
  store : list User;
  printed : list Out;
  db_calls : list Call
}.

(** A process starts with an empty heap and has printed nothing. *)
Definition run (c : M unit) (t : list User) : Outcome :=
  let '(res, w) := c (mkWorld t [] [] []) in
  mkOutcome res (table w) (stdout w) (calls w).

(** Typer exits with 0 when the command returns and with 1 when an
    exception leaves it. *)
Definition exit_code (o : Outcome) : Z :=
  match result o with Returned _ => 0 | Raised _ => 1 end.

(** The [User] objects among what was printed. *)
Definition printed_users (o : Outcome) : list User :=
  omap (fun x => match x with OutUser u => Some u | OutLine _ => None end)
       (printed o).

Section Cli.
Context `{Backend}.
Variable hash_password : string -> string.

Definition command (c : Command) : M unit :=
  match c with
  | Initialize => initialize hash_password
  | GetUser q => get_user q
  | GetAllUsers l o => get_all_users l o
  | ChangeEmail u e => change_email u e
  | CreateUser u e p => create_user hash_password u e p
  | DeleteUser u => delete_user u
  end.

(** The table after a command, and after a sequence of invocations. *)
Definition step (t : list User) (c : Command) : list User :=
  store (run (command c) t).

Definition steps (t : list User) (cs : list Command) : list User :=
  fold_left step cs t.

(** The store states the commands can produce, from the empty table that
    [create_db_and_tables] makes. *)
Inductive reachable : list User -> Prop :=
| reachable_empty : reachable []
| reachable_step t c : reachable t -> reachable (step t c).

End Cli.

(** ** The invariant of the table *)

(** Every row has a key, no two rows share one, and [username] and [email]
    are UNIQUE. *)
Record store_ok (t : list User) : Prop := mk_store_ok {
  ok_keyed : Forall (fun r => is_Some (id r)) t;
  ok_keys : NoDup (map id t);
  ok_usernames : NoDup (map username t);
  ok_emails : NoDup (map email t)
}.

(** ** The queries of the commands, as functions of the table *)

Definition persistent (row : User) : Obj := mkObj row (Persistent row).

(** What a listing command prints for the rows its query returned. *)
Definition listing (rows : list User) : list Out :=
  match rows with
  | [] => [OutLine "No users found"]
  | _ => map OutUser rows
  end.

(** The row a command finds by its exact username: the first in stored
    order. *)
Definition by_username (u : string) (t : list User) : option User :=
  head (List.filter (fun r => String.eqb (username r) u) t).

Section Queries.
Context `{Backend}.
Variable hash_password : string -> string.

(** The rows [get_user q] gets when the store takes its pattern. *)
Definition matching (q : string) (t : list User) : list User :=
  List.filter (fun r => contains q (username r) || contains q (email r)) t.

(** The rows [get_all_users] asks for. *)
Definition page (limit_opt offset_opt : option Z) (t : list User)
  : Exn + list User :=
  run_select (limit (default 10%Z limit_opt)
                    (offset (default 0%Z offset_opt) select_User)) t.

(** The row [initialize] writes. *)
Definition seed_row : User :=
  mkUser (Some 1) "bob" "bob@mail.com" (hash_password "bobpass").

(** The object [create_user] builds. *)
Definition new_user (username email password : string) : User :=
  mkUser None username email (hash_password password).



End Queries.


(** [is_substring q s]: [q] occurs in [s], character for character. *)
Fixpoint is_substring (q s : string) : bool :=
  String.prefix q s
  || match s with EmptyString => false | String _ s' => is_substring q s' end.

(** ** Example data *)

(** A concrete hash for the examples: the password behind a tag. *)
Definition tagged_hash (password : string) : string := "hash:" +:+ password.

Definition bob_row : User :=
  mkUser (Some 1) "bob" "bob@mail.com" (tagged_hash "bobpass").

Definition bobby_row : User :=
  mkUser (Some 2) "bobby" "rob@mail.com" (tagged_hash "pw").

(** ** Proof steps *)

(** Unfold the monad, then the session's methods, down to functions of the
    world. *)
Ltac unfold_monad :=
  unfold mbind, M_bind, mret, M_ret, modify, get_world, raise,
    log, emit, set_heap, set_table in *.

Ltac unfold_session :=
  unfold get_session, try_except_else, exec, first, alloc,
    add, delete, commit, rollback, refresh, print_line, print_obj,
    attr, set_email, get_obj, set_obj in *.

(** * Properties *)

(** ** The commands as functions of the table *)

Lemma all_eq (rows : list User) (w : World) :
  all rows w =
  (Returned (seq (length (heap w)) (length rows)),
   set_heap (heap w ++ map persistent rows) w).
Proof.
  revert w. induction rows as [|row rows IH]; intros [t h out cs]; cbn.
  - unfold set_heap; cbn. rewrite app_nil_r. reflexivity.
  - unfold mbind, M_bind, alloc. cbn. rewrite IH. cbn.
    rewrite length_app, Nat.add_1_r. unfold set_heap. cbn.
    rewrite <- app_assoc. reflexivity.
Qed.

Lemma for_each_print_eq (rows : list User) (h : list Obj) t out cs :
  for_each (seq (length h) (length rows)) print_obj
    (mkWorld t (h ++ map persistent rows) out cs) =
  (Returned tt, mkWorld t (h ++ map persistent rows) (out ++ map OutUser rows) cs).
Proof.
  revert h out. induction rows as [|row rows IH]; intros h out; cbn.
  - rewrite !app_nil_r. reflexivity.
  - unfold print_obj, attr, get_obj. unfold_monad. cbn.
    rewrite lookup_app_r by lia. rewrite Nat.sub_diag. cbn.
    specialize (IH (h ++ [persistent row]) (out ++ [OutUser row])).
    rewrite length_app, Nat.add_1_r in IH.
    rewrite <- !app_assoc in IH. exact IH.
Qed.

Section Runs.
Context `{Backend}.
Variable hash_password : string -> string.

Lemma list_rows_eq (rows t : list User) (cs : list Call) :
  (users ← all rows;
   match users with
   | [] => print_line "No users found"
   | _ => for_each users print_obj
   end) (mkWorld t [] [] cs) =
  (Returned tt, mkWorld t (map persistent rows) (listing rows) cs).
Proof.
  unfold mbind, M_bind. rewrite all_eq. cbn.
  destruct rows as [|row rows]; [reflexivity|].
  exact (for_each_print_eq (row :: rows) [] t [] cs).
Qed.

Lemma scan_username (u : string) (t : list User) :
  scan (Eq Username u) t =
  inr (List.filter (fun r => String.eqb (username r) u) t).
Proof.
  induction t as [|r t IH]; cbn; [done|]. rewrite IH. cbn.
  by destruct (String.eqb (username r) u).
Qed.

Lemma scan_contains (q : string) (t : list User) :
  scan (Or (Contains Username q) (Contains Email q)) t =
  if query_ok q then inr (matching q t)
  else match t with [] => inr [] | _ => inl StoreError end.
Proof.
  unfold query_ok. destruct (like_accepts (pattern_of q)) eqn:Hq.
  - induction t as [|r t IH]; cbn; [done|]. rewrite Hq, IH. cbn.
    by destruct (contains q (username r)), (contains q (email r)).
  - destruct t as [|r t]; cbn; [done|]. by rewrite Hq.
Qed.

(** [get_user] fails when the store does not take the pattern and there is
    a row to try it on; otherwise it lists the rows that match. *)
Lemma run_get_user (q : string) (t : list User) :
  run (get_user q) t =
  if query_ok q || bool_decide (t = [])
  then mkOutcome (Returned tt) t (listing (matching q t)) [CallExec]
  else mkOutcome (Raised StoreError) t [] [CallExec].
Proof.
  pose proof (list_rows_eq (matching q t) t [CallExec]) as E.
  unfold run, get_user, get_session, exec, run_select. unfold_monad.
  cbn. rewrite scan_contains. destruct (query_ok q); cbn.
  - rewrite E. reflexivity.
  - destruct t as [|r t]; reflexivity.
Qed.

Lemma run_get_user_ok (q : string) (t : list User) :
  query_ok q = true ->
  run (get_user q) t =
  mkOutcome (Returned tt) t (listing (matching q t)) [CallExec].
Proof. intros Hq. by rewrite run_get_user, Hq. Qed.

Lemma run_get_all_users (limit_opt offset_opt : option Z) (t : list User) :
  run (get_all_users limit_opt offset_opt) t =
  match page limit_opt offset_opt t with
  | inl e => mkOutcome (Raised e) t [] [CallExec]
  | inr rows => mkOutcome (Returned tt) t (listing rows) [CallExec]
  end.
Proof.
  unfold run, get_all_users, get_session, exec, page.
  destruct (run_select _ t) as [e|rows] eqn:Hsel.
  - unfold_monad. cbn. rewrite Hsel. reflexivity.
  - pose proof (list_rows_eq rows t [CallExec]) as E.
    unfold_monad. cbn. rewrite Hsel. rewrite E. reflexivity.
Qed.

Lemma run_initialize (t : list User) :
  run (initialize hash_password) t =
  mkOutcome (Returned tt) [seed_row hash_password] [OutLine "Database Initialized"]
    [CallDropAll; CallCreateTables; CallAdd; CallCommit; CallRefresh].
Proof. reflexivity. Qed.

Lemma run_create_user (u e p : string) (t : list User) :
  run (create_user hash_password u e p) t =
  if existsb (clashes (new_user hash_password u e p)) t
  then mkOutcome (Returned tt) t [OutLine "Username or email already taken!"]
         [CallAdd; CallCommit; CallRollback]
  else let row := with_id (next_id t) (new_user hash_password u e p) in
       mkOutcome (Returned tt) (t ++ [row]) [OutUser row] [CallAdd; CallCommit].
Proof.
  unfold run, create_user, User_new. unfold_session. unfold_monad.
  cbn. unfold insert_row. fold (new_user hash_password u e p).
  destruct (existsb _ t); reflexivity.
Qed.

Lemma run_change_email (u e : string) (t : list User) :
  run (change_email u e) t =
  match by_username u t with
  | None =>
      mkOutcome (Returned tt) t
        [OutLine (u +:+ " not found! Unable to update email.")] [CallExec]
  | Some row =>
      let row' := with_email e row in
      if decide (row' = row)
      then mkOutcome (Returned tt) t [OutLine (updated_message row')]
             [CallExec; CallAdd; CallCommit]
      else match update_row (id row) row' t with
           | inl err => mkOutcome (Raised err) t [] [CallExec; CallAdd; CallCommit]
           | inr t' => mkOutcome (Returned tt) t' [OutLine (updated_message row')]
                         [CallExec; CallAdd; CallCommit]
           end
  end.
Proof.
  unfold run, change_email, by_username. unfold_session. unfold_monad. cbn.
  rewrite scan_username.
  destruct (List.filter _ t) as [|row rows]; cbn; [reflexivity|].
  unfold flush_obj. cbn.
  destruct (decide (with_email e row = row)); cbn; [reflexivity|].
  destruct (update_row _ _ t); reflexivity.
Qed.

Lemma run_delete_user (u : string) (t : list User) :
  run (delete_user u) t =
  match by_username u t with
  | None =>
      mkOutcome (Returned tt) t
        [OutLine (u +:+ " not found! Unable to delete user.")] [CallExec]
  | Some row =>
      mkOutcome (Returned tt) (delete_row (id row) t)
        [OutLine (u +:+ " deleted")] [CallExec; CallDelete; CallCommit]
  end.
Proof.
  unfold run, delete_user, by_username. unfold_session. unfold_monad. cbn.
  rewrite scan_username.
  destruct (List.filter _ t) as [|row rows]; reflexivity.
Qed.

End Runs.

(** ** [LIKE] *)

Lemma append_cons (c : ascii) (s1 s2 : string) :
  String c s1 +:+ s2 = String c (s1 +:+ s2).
Proof. reflexivity. Qed.

Lemma append_empty_r (s : string) : s +:+ "" = s.
Proof.
  induction s as [|c s IH]; [reflexivity|]. by rewrite append_cons, IH.
Qed.

Section LikeFacts.
Context `{Backend}.

Lemma like_percent (p s : string) :
  like (String "%" p) s =
  like p s
  || match s with
     | EmptyString => false
     | String _ s' => like (String "%" p) s'
     end.
Proof. destruct s; reflexivity. Qed.

Lemma like_any_char (p s : string) (d : ascii) :
  like (String "_" p) (String d s) = like p s.
Proof. reflexivity. Qed.

(** A character that is neither a wildcard nor the escape character stands
    for itself. *)
Lemma like_char (c d : ascii) (p s : string) :
  Ascii.eqb c "%" = false -> Ascii.eqb c "_" = false -> escapes c = false ->
  like (String c p) (String d s) = like_char_eq c d && like p s.
Proof. intros Hp Hu He. cbn. rewrite Hp, Hu, He. reflexivity. Qed.


Lemma like_percent_here (p s : string) :
  like p s = true -> like (String "%" p) s = true.
Proof. intros Hp. rewrite like_percent, Hp. reflexivity. Qed.

Lemma like_percent_skip (p s : string) (d : ascii) :
  like (String "%" p) s = true -> like (String "%" p) (String d s) = true.
Proof. intros Hp. rewrite like_percent, Hp. apply orb_true_r. Qed.

Lemma like_percent_app (p a s : string) :
  like p s = true -> like (String "%" p) (a +:+ s) = true.
Proof.
  intros Hp. induction a as [|d a IH]; rewrite ?append_cons.
  - by apply like_percent_here.
  - by apply like_percent_skip.
Qed.

Lemma like_percent_all (s : string) : like "%" s = true.
Proof.
  induction s as [|d s IH]; [reflexivity|].
  rewrite like_percent, IH. apply orb_true_r.
Qed.

(** A string without the escape character matches itself read as a
    pattern, wildcards or not. *)
Lemma like_app_self (u p s : string) :
  escape_free u = true ->
  like p s = true -> like (u +:+ p) (u +:+ s) = true.
Proof.
  intros Hu Hp. induction u as [|c u IH]; rewrite ?append_cons; [done|].
  cbn [escape_free] in Hu. apply andb_prop in Hu as [Hc Hu].
  apply negb_true_iff in Hc. specialize (IH Hu).
  destruct (Ascii.eqb c "%") eqn:Hpc.
  { apply Ascii.eqb_eq in Hpc as ->.
    by apply like_percent_skip, like_percent_here. }
  destruct (Ascii.eqb c "_") eqn:Hus.
  { apply Ascii.eqb_eq in Hus as ->. by rewrite like_any_char. }
  rewrite like_char by done. by rewrite like_char_eq_refl, IH.
Qed.

Lemma contains_eq (q s : string) :
  contains q s = like (String "%" (q +:+ "%")) s.
Proof. reflexivity. Qed.

Lemma contains_infix (u a b : string) :
  escape_free u = true -> contains u (a +:+ u +:+ b) = true.
Proof.
  intros Hu. rewrite contains_eq.
  by apply like_percent_app, like_app_self, like_percent_all.
Qed.

Lemma contains_self (u : string) : escape_free u = true -> contains u u = true.
Proof.
  intros Hu. rewrite contains_eq. apply like_percent_here.
  rewrite <- (append_empty_r u) at 2.
  by apply like_app_self, like_percent_all.
Qed.

(** A ["%"] in the query matches everything. *)
Lemma contains_percent (s : string) : contains "%" s = true.
Proof.
  rewrite contains_eq. change ("%" +:+ "%") with (String "%" "%").
  apply like_percent_here, like_percent_here, like_percent_all.
Qed.



(** The patterns of a few bytes that the examples use are taken by every
    store. *)
Lemma query_ok_short (q : string) :
  (byte_length q <= 900)%N -> query_ok q = true.
Proof.
  intros Hq. unfold query_ok, like_accepts. apply N.leb_le.
  pose proof like_max_roomy as Hmax.
  assert (byte_length (pattern_of q) = (byte_length q + 2)%N) as ->; [|lia].
  unfold pattern_of. change ("%" +:+ ?x) with (String "%" x).
  cbn [byte_length]. induction q as [|c q IH]; [reflexivity|].
  rewrite append_cons. cbn [byte_length] in *.
  assert (byte_length q <= 900)%N as Hq' by (destruct (N_of_ascii c <? 128)%N; lia).
  specialize (IH Hq'). change (if (N_of_ascii "%" <? 128)%N then 1 else 2)%N with 1%N in *.
  lia.
Qed.

End LikeFacts.

(** ** The table: keys, lookups by username, and the three mutations *)

Lemma map_inj_on {A B} (f : A -> B) (l : list A) (x y : A) :
  NoDup (map f l) -> In x l -> In y l -> f x = f y -> x = y.
Proof.
  induction l as [|a l IH]; cbn; [done|].
  intros Hnd Hx Hy Hf. apply NoDup_cons in Hnd as [Ha Hnd].
  rewrite list_elem_of_In in Ha.
  destruct Hx as [->|Hx], Hy as [->|Hy]; auto.
  - exfalso. apply Ha. rewrite Hf. by apply in_map.
  - exfalso. apply Ha. rewrite <- Hf. by apply in_map.
Qed.

Lemma NoDup_map_filter {A B} (f : A -> B) (p : A -> bool) (l : list A) :
  NoDup (map f l) -> NoDup (map f (List.filter p l)).
Proof.
  induction l as [|a l IH]; cbn; [done|].
  intros Hnd. apply NoDup_cons in Hnd as [Ha Hnd].
  destruct (p a); cbn; auto.
  apply NoDup_cons. split; auto.
  rewrite list_elem_of_In in *.
  intros Hin. apply Ha. apply in_map_iff in Hin as (x & Hx & Hin).
  apply filter_In in Hin as [Hin _]. apply in_map_iff. eauto.
Qed.

Lemma by_username_Some (u : string) (t : list User) (r : User) :
  by_username u t = Some r -> In r t /\ username r = u.
Proof.
  unfold by_username. intros Hh.
  assert (In r (List.filter (fun r => String.eqb (username r) u) t)) as Hin.
  { destruct (List.filter _ t); inversion Hh; subst. by left. }
  apply filter_In in Hin as [Hin Hu]. by apply String.eqb_eq in Hu.
Qed.

Lemma by_username_None (u : string) (t : list User) :
  by_username u t = None <-> forall r, In r t -> username r <> u.
Proof.
  unfold by_username. split.
  - intros Hh r Hin Hu.
    assert (In r (List.filter (fun r => String.eqb (username r) u) t)) as Hf.
    { apply filter_In. split; [done|]. by apply String.eqb_eq. }
    destruct (List.filter _ t); [done | discriminate].
  - intros Hno. destruct (List.filter _ t) as [|r l] eqn:Hf; [done|].
    assert (In r (List.filter (fun r => String.eqb (username r) u) t)) as Hin.
    { rewrite Hf. by left. }
    apply filter_In in Hin as [Hin Hu]. apply String.eqb_eq in Hu.
    by destruct (Hno r Hin).
Qed.

Lemma by_username_unique (u : string) (t : list User) (r : User) :
  NoDup (map username t) -> In r t -> username r = u ->
  by_username u t = Some r.
Proof.
  intros Hnd Hin Hu. destruct (by_username u t) as [r'|] eqn:Hb.
  - apply by_username_Some in Hb as [Hin' Hu'].
    f_equal. apply (map_inj_on username t); congruence.
  - rewrite by_username_None in Hb. by destruct (Hb r Hin).
Qed.

Lemma next_id_above (t : list User) (r : User) (i : nat) :
  In r t -> id r = Some i -> i < next_id t.
Proof.
  unfold next_id. induction t as [|a t IH]; cbn; [done|].
  intros [->|Hin] Hi.
  - rewrite Hi. cbn. lia.
  - specialize (IH Hin Hi). lia.
Qed.

Lemma next_id_fresh (t : list User) : ~ In (Some (next_id t)) (map id t).
Proof.
  intros Hin. apply in_map_iff in Hin as (r & Hi & Hin).
  pose proof (next_id_above t r _ Hin Hi). lia.
Qed.

Lemma same_key_true (key : option nat) (r : User) :
  same_key key r = true <-> id r = key.
Proof. unfold same_key. apply bool_decide_eq_true. Qed.

Lemma same_key_false (key : option nat) (r : User) :
  same_key key r = false <-> id r <> key.
Proof. unfold same_key. apply bool_decide_eq_false. Qed.

Lemma clashes_false (u r : User) :
  clashes u r = false <-> username r <> username u /\ email r <> email u.
Proof.
  unfold clashes. rewrite orb_false_iff, !String.eqb_neq. reflexivity.
Qed.

Lemma existsb_false {A} (p : A -> bool) (l : list A) :
  existsb p l = false <-> forall x, In x l -> p x = false.
Proof.
  split.
  - intros He x Hin. destruct (p x) eqn:Hp; [|done].
    rewrite <- He. symmetry. apply existsb_exists. eauto.
  - intros Hall. destruct (existsb p l) eqn:He; [|done].
    apply existsb_exists in He as (x & Hin & Hp). by rewrite Hall in Hp.
Qed.

(** INSERT keeps the invariant. *)
Lemma store_ok_insert (u : User) (t t' : list User) (row : User) :
  store_ok t -> insert_row u t = inr (row, t') ->
  store_ok t' /\ t' = t ++ [row] /\ row = with_id (next_id t) u /\
  existsb (clashes u) t = false.
Proof.
  intros [Hk Hi Hu He]. unfold insert_row.
  destruct (existsb (clashes u) t) eqn:Hc; [done|].
  intros [= <- <-]. split; [|done].
  rewrite existsb_false in Hc.
  split.
  - apply Forall_app. split; [done|]. repeat constructor. by eexists.
  - rewrite map_app. cbn. apply NoDup_app. split; [done|]. split.
    + intros x Hx [<-|[]]%list_elem_of_In. apply (next_id_fresh t).
      by apply list_elem_of_In.
    + apply NoDup_singleton.
  - rewrite map_app. cbn. apply NoDup_app. split; [done|]. split.
    + intros x Hx [<-|[]]%list_elem_of_In.
      apply list_elem_of_In, in_map_iff in Hx as (r & Hr & Hin).
      apply Hc, clashes_false in Hin. tauto.
    + apply NoDup_singleton.
  - rewrite map_app. cbn. apply NoDup_app. split; [done|]. split.
    + intros x Hx [<-|[]]%list_elem_of_In.
      apply list_elem_of_In, in_map_iff in Hx as (r & Hr & Hin).
      apply Hc, clashes_false in Hin. tauto.
    + apply NoDup_singleton.
Qed.

(** DELETE keeps the invariant. *)
Lemma store_ok_delete (key : option nat) (t : list User) :
  store_ok t -> store_ok (delete_row key t).
Proof.
  intros [Hk Hi Hu He]. unfold delete_row. split.
  - apply Forall_forall. intros x Hx%list_elem_of_In%filter_In.
    rewrite Forall_forall in Hk. apply Hk, list_elem_of_In. tauto.
  - by apply NoDup_map_filter.
  - by apply NoDup_map_filter.
  - by apply NoDup_map_filter.
Qed.

Lemma NoDup_middle {A} (l1 l2 : list A) (a : A) :
  NoDup (l1 ++ a :: l2) <-> ~ In a (l1 ++ l2) /\ NoDup (l1 ++ l2).
Proof.
  rewrite !NoDup_app, NoDup_cons, in_app_iff, <- !list_elem_of_In.
  split.
  - intros (H1 & H12 & Ha & H2). repeat split; auto.
    + intros [Hin|Hin]; [|done]. apply (H12 a Hin). by left.
    + intros x Hx Hx2. apply (H12 x Hx). by right.
  - intros (Ha & H1 & H12 & H2). repeat split; auto.
    intros x Hx [->|Hx2]%elem_of_cons; [tauto|]. by apply (H12 x).
Qed.

(** UPDATE by key rewrites the one row that carries the key. *)
Lemma update_row_split (r u : User) (t t' : list User) :
  NoDup (map id t) -> In r t -> update_row (id r) u t = inr t' ->
  exists l1 l2, t = l1 ++ r :: l2 /\ t' = l1 ++ u :: l2 /\
    forall x, In x (l1 ++ l2) -> id x <> id r /\ clashes u x = false.
Proof.
  intros Hnd Hin. apply in_split in Hin as (l1 & l2 & ->).
  rewrite map_app in Hnd. cbn in Hnd. apply NoDup_middle in Hnd as [Hr _].
  rewrite <- map_app in Hr.
  assert (forall x, In x (l1 ++ l2) -> id x <> id r) as Hne.
  { intros x Hx Heq. apply Hr. rewrite <- Heq. by apply in_map. }
  unfold update_row.
  destruct (existsb _ _) eqn:Hc; [done|]. intros [= <-].
  rewrite existsb_false in Hc.
  exists l1, l2. split; [done|]. split.
  - rewrite map_app. cbn. replace (same_key (id r) r) with true
      by (symmetry; by apply same_key_true).
    f_equal; [|f_equal]; rewrite <- (map_id l1) at 2 || rewrite <- (map_id l2) at 2;
      apply map_ext_in; intros x Hx;
      replace (same_key (id r) x) with false; try done;
      symmetry; apply same_key_false, Hne, in_app_iff; auto.
  - intros x Hx. split; [by apply Hne|].
    assert (In x (l1 ++ r :: l2)) as Hx'.
    { apply in_app_iff. apply in_app_iff in Hx as [?|?]; [by left|by right; right]. }
    specialize (Hc x Hx'). apply andb_false_iff in Hc as [Hc|Hc]; [|done].
    apply negb_false_iff, same_key_true in Hc. by destruct (Hne x Hx).
Qed.

(** UPDATE of the email keeps the invariant. *)
Lemma store_ok_update (r : User) (e : string) (t t' : list User) :
  store_ok t -> In r t -> update_row (id r) (with_email e r) t = inr t' ->
  store_ok t'.
Proof.
  intros [Hk Hi Hu He] Hin Hup.
  destruct (update_row_split _ _ _ _ Hi Hin Hup) as (l1 & l2 & -> & -> & Hx).
  split.
  - apply Forall_app in Hk as [Hk1 Hk2]. apply Forall_cons in Hk2 as [Hr Hk2].
    apply Forall_app. split; [done|]. by apply Forall_cons.
  - by rewrite map_app in *.
  - by rewrite map_app in *.
  - rewrite map_app in *. cbn in *. apply NoDup_middle in He as [_ He].
    apply NoDup_middle. split; [|done].
    rewrite <- map_app. intros (x & Hex & Hxin)%in_map_iff.
    apply Hx in Hxin as [_ Hc]. apply clashes_false in Hc. cbn in Hc. tauto.
Qed.

Lemma filter_unique {B} (f : User -> B) (eqb : B -> B -> bool) (t : list User)
    (r : User) :
  (forall x y, eqb x y = true <-> x = y) ->
  NoDup (map f t) -> In r t ->
  List.filter (fun x => eqb (f x) (f r)) t = [r].
Proof.
  intros Heqb Hnd Hin. apply in_split in Hin as (l1 & l2 & ->).
  rewrite map_app in Hnd. cbn in Hnd. apply NoDup_middle in Hnd as [Hr _].
  rewrite <- map_app in Hr.
  assert (forall l, (forall x, In x l -> In x (l1 ++ l2)) ->
            List.filter (fun x => eqb (f x) (f r)) l = []) as Hnone.
  { induction l as [|a l IH]; cbn; [done|]. intros Hsub.
    destruct (eqb (f a) (f r)) eqn:Ha.
    - exfalso. apply Hr. apply Heqb in Ha. rewrite <- Ha.
      apply in_map, Hsub. by left.
    - apply IH. intros x Hx. apply Hsub. by right. }
  rewrite List.filter_app. cbn.
  rewrite (proj2 (Heqb (f r) (f r)) eq_refl).
  rewrite !Hnone; [done| |]; intros x Hx; apply in_app_iff; auto.
Qed.

Lemma printed_users_listing (res : Result unit) (t rows : list User)
    (cs : list Call) :
  printed_users (mkOutcome res t (listing rows) cs) = rows.
Proof.
  unfold printed_users. cbn. destruct rows as [|r rows]; [done|].
  unfold listing. generalize (r :: rows). intros l.
  induction l as [|a l IH]; cbn; [done|]. by rewrite IH.
Qed.

(** * The claims *)

Section Claims.
Context `{Backend}.
Variable hash_password : string -> string.

(** ** The invariant is kept by every command *)

Lemma step_ok (t : list User) (c : Command) :
  store_ok t -> store_ok (step hash_password t c).
Proof.
  intros Hok. unfold step.
  destruct c as [|q|l o|u e|u e p|u]; cbn [command].
  - rewrite run_initialize. cbn. split; cbn.
    + repeat constructor. by eexists.
    + apply NoDup_singleton.
    + apply NoDup_singleton.
    + apply NoDup_singleton.
  - rewrite run_get_user. by destruct (_ || _).
  - rewrite run_get_all_users. by destruct (page _ _ t).
  - rewrite run_change_email.
    destruct (by_username _ t) as [r|] eqn:Hb; [|done].
    apply by_username_Some in Hb as [Hin _].
    cbn zeta. destruct (decide _); [done|].
    destruct (update_row _ _ t) as [err|t'] eqn:Hup; [done|].
    cbn. by eapply store_ok_update.
  - rewrite run_create_user.
    destruct (existsb _ t) eqn:Hc; [done|]. cbn.
    eapply (store_ok_insert (new_user hash_password u e p)); [done|].
    unfold insert_row. by rewrite Hc.
  - rewrite run_delete_user.
    destruct (by_username _ t) as [r|]; [|done]. cbn.
    by apply store_ok_delete.
Qed.

Lemma steps_ok (cs : list Command) (t : list User) :
  store_ok t -> store_ok (steps hash_password t cs).
Proof.
  revert t. induction cs as [|c cs IH]; intros t Hok; cbn; [done|].
  apply IH. by apply step_ok.
Qed.

Lemma reachable_ok (t : list User) : reachable hash_password t -> store_ok t.
Proof.
  induction 1 as [|t c _ IH].
  - split; cbn; constructor.
  - by apply step_ok.
Qed.

(** ** The two refused mutations *)

Lemma run_create_user_clash (t : list User) (u e p : string) (r : User) :
  In r t -> username r = u \/ email r = e ->
  run (create_user hash_password u e p) t =
  mkOutcome (Returned tt) t [OutLine "Username or email already taken!"]
    [CallAdd; CallCommit; CallRollback].
Proof.
  intros Hin Hdup. rewrite run_create_user.
  replace (existsb _ t) with true; [done|].
  symmetry. apply existsb_exists. exists r. split; [done|].
  unfold clashes. cbn. apply orb_true_iff.
  destruct Hdup as [<-|<-]; [left|right]; apply String.eqb_refl.
Qed.

Lemma run_change_email_clash (t : list User) (u e : string) (r other : User) :
  store_ok t ->
  In r t -> username r = u ->
  In other t -> username other <> u -> email other = e ->
  run (change_email u e) t =
  mkOutcome (Raised IntegrityError) t [] [CallExec; CallAdd; CallCommit].
Proof.
  intros [Hk Hi Hun Hem] Hr Hu Hother Hne He. rewrite run_change_email.
  rewrite (by_username_unique u t r) by done. cbn zeta.
  assert (other <> r) as Hdiff by congruence.
  assert (email r <> e) as Hre.
  { intros Heq. apply Hdiff. apply (map_inj_on email t); congruence. }
  destruct (decide (with_email e r = r)) as [Heq|_].
  { exfalso. apply Hre. by rewrite <- Heq. }
  unfold update_row. replace (existsb _ t) with true; [done|].
  symmetry. apply existsb_exists. exists other. split; [done|].
  apply andb_true_iff. split.
  - apply negb_true_iff, same_key_false. intros Hid. apply Hdiff.
    by apply (map_inj_on id t).
  - unfold clashes. cbn. rewrite He, String.eqb_refl. apply orb_true_r.
Qed.

(** C1: [create_user] with a username or an email that a row already has:
    the session is rolled back, the table is what it was (so, the table
    being well formed, the one row with that username, or email, is still
    the only one), the command prints "Username or email already taken!"
    and returns, which is exit code 0. *)
Theorem create_user_duplicate (t : list User) (u e p : string) (r : User) :
  In r t -> username r = u \/ email r = e ->
  let o := run (create_user hash_password u e p) t in
  In CallRollback (db_calls o) /\
  db_calls o = [CallAdd; CallCommit; CallRollback] /\
  store o = t /\
  printed o = [OutLine "Username or email already taken!"] /\
  result o = Returned tt /\
  exit_code o = 0%Z /\
  (store_ok t ->
   (username r = u ->
    List.filter (fun x => String.eqb (username x) u) (store o) = [r]) /\
   (email r = e ->
    List.filter (fun x => String.eqb (email x) e) (store o) = [r])).
Proof.
  intros Hin Hdup o. subst o. rewrite (run_create_user_clash t u e p r) by done.
  cbn. repeat (split; [by auto|]).
  intros [_ _ Hun Hem]. split; intros <-.
  - apply (filter_unique username String.eqb); auto using String.eqb_eq.
  - apply (filter_unique email String.eqb); auto using String.eqb_eq.
Qed.

(** C6: [change_email] for a username no row has leaves the table as it is,
    prints the not-found line and returns, which is exit code 0. *)
Theorem change_email_absent (t : list User) (u e : string) :
  (forall r, In r t -> username r <> u) ->
  let o := run (change_email u e) t in
  store o = t /\
  printed o = [OutLine (u +:+ " not found! Unable to update email.")] /\
  db_calls o = [CallExec] /\
  result o = Returned tt /\
  exit_code o = 0%Z.
Proof.
  intros Hno o. subst o. rewrite run_change_email.
  apply by_username_None in Hno. rewrite Hno. by cbn.
Qed.

(** C9: [change_email] to the email of another user: the commit raises
    [IntegrityError], nothing in the command catches it (nothing is printed
    and [rollback] is not called), and the exception leaves the command;
    the table is what it was. *)
Theorem change_email_duplicate_uncaught (t : list User) (u e : string)
    (r other : User) :
  store_ok t ->
  In r t -> username r = u ->
  In other t -> username other <> u -> email other = e ->
  let o := run (change_email u e) t in
  result o = Raised IntegrityError /\
  printed o = [] /\
  ~ In CallRollback (db_calls o) /\
  db_calls o = [CallExec; CallAdd; CallCommit] /\
  store o = t /\
  exit_code o = 1%Z.
Proof.
  intros Hok Hr Hu Hother Hne He o. subst o.
  rewrite (run_change_email_clash t u e r other) by done.
  cbn. repeat split; auto.
  intros [|[|[|[]]]]; discriminate.
Qed.

(** C10: a [change_email] that returns, for a username a row has, changes
    the email of that one row and nothing else: the row keeps its place,
    its id, its username and its password, and every other row is the
    same. *)
Theorem change_email_frame (t : list User) (u e : string) (r : User) :
  store_ok t -> In r t -> username r = u ->
  let o := run (change_email u e) t in
  result o = Returned tt ->
  exists l1 l2 r',
    t = l1 ++ r :: l2 /\ store o = l1 ++ r' :: l2 /\
    (forall x, In x (l1 ++ l2) -> username x <> u) /\
    email r' = e /\
    id r' = id r /\ username r' = username r /\ password r' = password r.
Proof.
  intros Hok Hr Hu o. subst o. rewrite run_change_email.
  destruct Hok as [Hk Hi Hun Hem].
  rewrite (by_username_unique u t r) by done. cbn zeta.
  assert (exists l1 l2, t = l1 ++ r :: l2 /\
            forall x, In x (l1 ++ l2) -> username x <> u) as Hsplit.
  { destruct (in_split _ _ Hr) as (l1 & l2 & ->). exists l1, l2. split; [done|].
    rewrite map_app in Hun. cbn in Hun. apply NoDup_middle in Hun as [Hn _].
    intros x Hx Hxu. apply Hn. rewrite <- map_app, Hu, <- Hxu. by apply in_map. }
  destruct (decide (with_email e r = r)) as [Heq|Hneq]; cbn.
  - intros _. destruct Hsplit as (l1 & l2 & -> & Hrest).
    exists l1, l2, (with_email e r). rewrite Heq at 1. by repeat split.
  - destruct (update_row _ _ t) as [err|t'] eqn:Hup; cbn; [done|]. intros _.
    destruct (update_row_split _ _ _ _ Hi Hr Hup) as (l1 & l2 & -> & -> & Hx).
    exists l1, l2, (with_email e r). repeat split; auto.
    intros x Hxin Hxu.
    rewrite map_app in Hun. cbn in Hun. apply NoDup_middle in Hun as [Hn _].
    apply Hn. rewrite <- map_app, Hu, <- Hxu. by apply in_map.
Qed.

(** C2, as amended: [username] and [email] are UNIQUE in every reachable
    table, every command keeps the table well formed, and the two mutations
    that would break uniqueness ([create_user] with a taken username or
    email, [change_email] to another user's email) are refused and leave
    the table as it was.  Nothing makes the two strings non-empty. *)
Theorem uniqueness_invariant :
  (forall t, reachable hash_password t ->
     NoDup (map username t) /\ NoDup (map email t)) /\
  (forall t c, store_ok t -> store_ok (step hash_password t c)) /\
  (forall t u e p r, In r t -> username r = u \/ email r = e ->
     let o := run (command hash_password (CreateUser u e p)) t in
     store o = t /\
     printed o = [OutLine "Username or email already taken!"]) /\
  (forall t u e r other,
     store_ok t -> In r t -> username r = u ->
     In other t -> username other <> u -> email other = e ->
     let o := run (command hash_password (ChangeEmail u e)) t in
     store o = t /\ result o = Raised IntegrityError).
Proof.
  split; [|split; [|split]].
  - intros t Hr. apply reachable_ok in Hr as [_ _ Hu He]. by split.
  - intros t c. apply step_ok.
  - intros t u e p r Hin Hdup. cbn.
    by rewrite (run_create_user_clash t u e p r).
  - intros t u e r other Hok Hr Hu Hother Hne He. cbn.
    by rewrite (run_change_email_clash t u e r other).
Qed.


Lemma fits_int64_count (n : Z) : is_count n -> fits_int64 n = true.
Proof.
  intros [Hlo Hhi]. unfold fits_int64. apply andb_true_iff.
  split; [apply Z.leb_le | apply Z.ltb_lt]; lia.
Qed.

(** The page of a limit and an offset that are counts. *)
Lemma page_counts (limit offset : Z) (t : list User) :
  is_count limit -> is_count offset ->
  page (Some limit) (Some offset) t =
  inr (firstn (Z.to_nat limit) (skipn (Z.to_nat offset) t)).
Proof.
  intros Hl Ho. unfold page, run_select. cbn.
  rewrite !fits_int64_count by done. cbn.
  destruct Hl as [Hl _], Ho as [Ho _].
  destruct (Z.ltb_spec offset 0); [lia|]. cbn.
  by destruct (Z.ltb_spec limit 0); [lia|].
Qed.


(** C7: whatever the table holds, [initialize] drops and recreates the
    schema and inserts the one seed user, and a [get_user "bob"] after it
    prints exactly that one record, with username "bob" and email
    "bob@mail.com". *)
Theorem initialize_then_get_bob (t : list User) :
  let o := run (initialize hash_password) t in
  let o' := run (get_user "bob") (store o) in
  db_calls o =
    [CallDropAll; CallCreateTables; CallAdd; CallCommit; CallRefresh] /\
  store o = [seed_row hash_password] /\
  printed o = [OutLine "Database Initialized"] /\
  printed o' = [OutUser (seed_row hash_password)] /\
  printed_users o' = [seed_row hash_password] /\
  username (seed_row hash_password) = "bob" /\
  email (seed_row hash_password) = "bob@mail.com".
Proof.
  cbn zeta. rewrite run_initialize. cbn [store db_calls printed].
  rewrite run_get_user_ok by (apply query_ok_short; by vm_compute).
  assert (escape_free "bob" = true) as He
    by (unfold escape_free, escapes; cbn; by rewrite !andb_false_r).
  assert (matching "bob" [seed_row hash_password] = [seed_row hash_password])
    as ->.
  { unfold matching. cbn [List.filter seed_row username email].
    by rewrite contains_self. }
  by repeat split.
Qed.

(** ** Deleting, and what survives the later commands *)

Lemma delete_row_by_username (t : list User) (u : string) (r : User) :
  store_ok t -> In r t -> username r = u ->
  delete_row (id r) t =
  List.filter (fun x => negb (String.eqb (username x) u)) t.
Proof.
  intros [_ Hi Hun _] Hr Hu. unfold delete_row.
  apply filter_ext_in. intros x Hx. f_equal.
  destruct (String.eqb_spec (username x) u) as [Hxu|Hxu].
  - apply same_key_true. f_equal. apply (map_inj_on username t); congruence.
  - apply same_key_false. intros Hid. apply Hxu.
    rewrite <- Hu. f_equal. by apply (map_inj_on id t).
Qed.

Lemma step_keeps_user (t : list User) (c : Command) (u : string)
    (k : option nat) :
  store_ok t -> c <> DeleteUser u -> c <> Initialize ->
  (exists r, In r t /\ username r = u /\ id r = k) ->
  exists r, In r (step hash_password t c) /\ username r = u /\ id r = k.
Proof.
  intros Hok Hdel Hinit (r & Hr & Hu & Hk). unfold step.
  destruct c as [|q|l o|u' e'|u' e' p'|u']; cbn [command]; [done|..].
  - rewrite run_get_user. destruct (_ || _); cbn; eauto.
  - rewrite run_get_all_users. destruct (page _ _ t); cbn; eauto.
  - rewrite run_change_email.
    destruct (by_username u' t) as [r0|] eqn:Hb; [|cbn; eauto].
    apply by_username_Some in Hb as [Hr0 Hu0]. cbn zeta.
    destruct (decide _); [cbn; eauto|].
    destruct (update_row _ _ t) as [err|t'] eqn:Hup; cbn; [eauto|].
    destruct Hok as [_ Hi _ _].
    destruct (update_row_split _ _ _ _ Hi Hr0 Hup) as (l1 & l2 & -> & -> & _).
    apply in_app_iff in Hr as [Hr|[<-|Hr]].
    + exists r. split; [|done]. apply in_app_iff. by left.
    + exists (with_email e' r0). split; [|done]. apply in_app_iff. right. by left.
    + exists r. split; [|done]. apply in_app_iff. right. by right.
  - rewrite run_create_user. destruct (existsb _ t); cbn; [eauto|].
    exists r. split; [|done]. apply in_app_iff. by left.
  - rewrite run_delete_user.
    destruct (by_username u' t) as [r0|] eqn:Hb; [|cbn; eauto].
    apply by_username_Some in Hb as [Hr0 Hu0]. cbn.
    exists r. split; [|done]. unfold delete_row. apply filter_In. split; [done|].
    apply negb_true_iff, same_key_false. intros Hid.
    destruct Hok as [_ Hi _ _].
    assert (r = r0) as -> by (by apply (map_inj_on id t)).
    apply Hdel. congruence.
Qed.

Lemma steps_keep_user (cs : list Command) (t : list User) (u : string)
    (k : option nat) :
  store_ok t ->
  Forall (fun c => c <> DeleteUser u /\ c <> Initialize) cs ->
  (exists r, In r t /\ username r = u /\ id r = k) ->
  exists r, In r (steps hash_password t cs) /\ username r = u /\ id r = k.
Proof.
  revert t. induction cs as [|c cs IH]; intros t Hok Hcs Hex; cbn; [done|].
  apply Forall_cons in Hcs as [[Hdel Hinit] Hcs].
  apply IH; [by apply step_ok|done|]. by apply step_keeps_user.
Qed.

(** C3, as amended: for a username [u] that the store's [LIKE] takes as a
    query as it stands (its pattern is not longer than [LIKE] allows, and
    it holds no escape character): after a [create_user u e p] that printed
    the new record, and any later commands other than [delete_user u] and
    [initialize], [get_user u] prints the record of [u]: exactly one of the
    records it prints has the username [u], and it is the one that was
    created (the same id).  Other records may be printed with it, those of
    the users whose username or email the query also matches. *)
Theorem created_user_is_found (t : list User) (u e p : string) (row : User)
    (cs : list Command) :
  query_ok u = true -> escape_free u = true ->
  store_ok t ->
  printed (run (create_user hash_password u e p) t) = [OutUser row] ->
  Forall (fun c => c <> DeleteUser u /\ c <> Initialize) cs ->
  let t' := steps hash_password (step hash_password t (CreateUser u e p)) cs in
  let o := run (get_user u) t' in
  result o = Returned tt /\
  exists r,
    In r (printed_users o) /\
    List.filter (fun x => String.eqb (username x) u) (printed_users o) = [r] /\
    username r = u /\ id r = id row.
Proof.
  intros Hq He Hok Hcreated Hcs t' o.
  assert (store_ok (step hash_password t (CreateUser u e p))) as Hok1
    by by apply step_ok.
  assert (exists r, In r (step hash_password t (CreateUser u e p)) /\
                    username r = u /\ id r = id row) as Hthere.
  { unfold step. cbn [command]. rewrite run_create_user in Hcreated |- *.
    destruct (existsb _ t); [discriminate|]. cbn in Hcreated |- *.
    injection Hcreated as Hrow. exists row. rewrite <- Hrow.
    split; [|done]. apply in_app_iff. right. by left. }
  destruct (steps_keep_user cs _ u (id row) Hok1 Hcs Hthere)
    as (r & Hr & Hu & Hk).
  pose proof (steps_ok cs _ Hok1) as [_ _ Hun _]. fold t' in Hr, Hun.
  subst o. rewrite run_get_user_ok by done. rewrite printed_users_listing.
  split; [done|].
  assert (In r (matching u t')) as Hm.
  { apply filter_In. split; [done|]. by rewrite Hu, contains_self. }
  exists r. split; [done|]. split; [|done].
  pose proof (filter_unique username String.eqb (matching u t') r
                String.eqb_eq (NoDup_map_filter _ _ _ Hun) Hm) as Hone.
  by rewrite Hu in Hone.
Qed.


End Claims.

(** A query written out in the text, on any back end: it holds no escape
    character, and its pattern is short. *)
Ltac plain_query :=
  first [ apply query_ok_short; by vm_compute
        | unfold escape_free, escapes; cbn; by rewrite ?andb_false_r ].

(** * Concrete runs *)

Example like_sqlite_ignores_case : @contains sqlite "OB" "bob" = true.
Proof. reflexivity. Qed.

Example like_postgresql_exact : @contains postgresql "OB" "bob" = false.
Proof. reflexivity. Qed.

Example like_underscore : @contains postgresql "b_b" "bob@mail.com" = true.
Proof. reflexivity. Qed.

Example initialize_resets :
  run (initialize tagged_hash) [bobby_row] =
  mkOutcome (Returned tt) [bob_row] [OutLine "Database Initialized"]
    [CallDropAll; CallCreateTables; CallAdd; CallCommit; CallRefresh].
Proof. reflexivity. Qed.

Example create_user_appends :
  run (create_user tagged_hash "bobby" "rob@mail.com" "pw") [bob_row] =
  mkOutcome (Returned tt) [bob_row; bobby_row] [OutUser bobby_row]
    [CallAdd; CallCommit].
Proof. reflexivity. Qed.

Example delete_user_removes :
  run (@delete_user sqlite "bob") [bob_row; bobby_row] =
  mkOutcome (Returned tt) [bobby_row] [OutLine "bob deleted"]
    [CallExec; CallDelete; CallCommit].
Proof. reflexivity. Qed.

(** A negative limit is the back end's business: SQLite reads it as no
    limit, PostgreSQL refuses the statement. *)
Example negative_limit_sqlite :
  printed (run (@get_all_users sqlite (Some (-1)%Z) None) [bob_row; bobby_row])
  = [OutUser bob_row; OutUser bobby_row].
Proof. reflexivity. Qed.

Example negative_limit_postgresql :
  result (run (@get_all_users postgresql (Some (-1)%Z) None) [bob_row; bobby_row])
  = Raised StoreError.
Proof. reflexivity. Qed.

Lemma example_store_ok : store_ok [bob_row; bobby_row].
Proof.
  split; cbn.
  - repeat constructor; by eexists.
  - by apply (bool_decide_unpack _).
  - by apply (bool_decide_unpack _).
  - by apply (bool_decide_unpack _).
Qed.

Lemma reachable_steps `{Backend} (hash : string -> string) (cs : list Command)
    (t : list User) :
  reachable hash t -> reachable hash (steps hash t cs).
Proof.
  revert t. induction cs as [|c cs IH]; intros t Hr; cbn; [done|].
  apply IH. by constructor.
Qed.

(** C1 at work: a second "bob" on the table of bob and bobby. *)
Lemma create_user_duplicate_witness :
  let t := [bob_row; bobby_row] in
  let o := run (create_user tagged_hash "bob" "new@mail.com" "pw") t in
  (In bob_row t /\ (username bob_row = "bob" \/ email bob_row = "new@mail.com")) /\
  store o = t /\
  printed o = [OutLine "Username or email already taken!"] /\
  exit_code o = 0%Z.
Proof.
  pose proof (create_user_duplicate tagged_hash [bob_row; bobby_row]
                "bob" "new@mail.com" "pw" bob_row
                (or_introl eq_refl) (or_introl eq_refl)) as Hw.
  cbv zeta in Hw |- *. split; [split; [by left | by left]|]. tauto.
Defined.

(** C6 at work: nobody is called "alice". *)
Lemma change_email_absent_witness :
  let t := [bob_row; bobby_row] in
  let o := run (@change_email sqlite "alice" "alice@mail.com") t in
  (forall r, In r t -> username r <> "alice") /\
  store o = t /\
  printed o = [OutLine "alice not found! Unable to update email."] /\
  exit_code o = 0%Z.
Proof.
  assert (forall r, In r [bob_row; bobby_row] -> username r <> "alice") as Hno.
  { intros r [<-|[<-|[]]]; discriminate. }
  pose proof (@change_email_absent sqlite [bob_row; bobby_row]
                "alice" "alice@mail.com" Hno) as Hw.
  cbv zeta in Hw |- *. split; [done|]. tauto.
Defined.

(** C9 at work: bob asks for bobby's email. *)
Lemma change_email_duplicate_uncaught_witness :
  let t := [bob_row; bobby_row] in
  let o := run (@change_email sqlite "bob" "rob@mail.com") t in
  store_ok t /\
  result o = Raised IntegrityError /\
  printed o = [] /\
  db_calls o = [CallExec; CallAdd; CallCommit] /\
  store o = t.
Proof.
  pose proof (@change_email_duplicate_uncaught sqlite [bob_row; bobby_row]
                "bob" "rob@mail.com" bob_row bobby_row example_store_ok
                (or_introl eq_refl) eq_refl (or_intror (or_introl eq_refl))
                ltac:(discriminate) eq_refl) as Hw.
  cbv zeta in Hw |- *. split; [apply example_store_ok|]. tauto.
Defined.

(** C10 at work: bob's new email. *)
Lemma change_email_frame_witness :
  let t := [bob_row; bobby_row] in
  let o := run (@change_email sqlite "bob" "bob@new.com") t in
  store_ok t /\ result o = Returned tt /\
  exists l1 l2 r',
    t = l1 ++ bob_row :: l2 /\ store o = l1 ++ r' :: l2 /\
    (forall x, In x (l1 ++ l2) -> username x <> "bob") /\
    email r' = "bob@new.com" /\
    id r' = id bob_row /\ username r' = username bob_row /\
    password r' = password bob_row.
Proof.
  cbv zeta. split; [apply example_store_ok|]. split; [reflexivity|].
  exact (@change_email_frame sqlite [bob_row; bobby_row] "bob" "bob@new.com"
           bob_row example_store_ok (or_introl eq_refl) eq_refl eq_refl).
Defined.

(** C2, as stated, fails: [create_user] with an empty username and an empty
    email succeeds on the empty table, whatever the back end and the hash. *)
Lemma empty_username_reachable :
  exists cs : list Command,
    forall (B : Backend) (hash : string -> string),
      reachable hash (steps hash [] cs) /\
      exists r, In r (steps hash [] cs) /\ username r = "" /\ email r = "".
Proof.
  exists [CreateUser "" "" "pw"]. intros B hash. split.
  - apply reachable_steps. constructor.
  - cbn [steps fold_left]. unfold step. cbn [command].
    rewrite run_create_user. cbn.
    eexists. split; [by left|]. done.
Qed.

(** C2 at work: the table after a command on the table of bob and bobby. *)
Lemma uniqueness_invariant_witness :
  store_ok [bob_row; bobby_row] /\
  store_ok (@step sqlite tagged_hash [bob_row; bobby_row]
              (ChangeEmail "bob" "bob@new.com")).
Proof.
  split; [apply example_store_ok|].
  apply (proj1 (proj2 (@uniqueness_invariant sqlite tagged_hash))).
  apply example_store_ok.
Defined.

(** C3, as stated, fails: after bob, "bo" is created; [get_user "bo"]
    prints two records, bob's too. *)
Lemma created_user_not_alone :
  exists (t : list User) (u e p : string),
    store_ok t /\
    forall (B : Backend) (hash : string -> string),
      (exists row, printed (run (create_user hash u e p) t) = [OutUser row]) /\
      length (printed_users (run (get_user u) (step hash t (CreateUser u e p))))
        = 2.
Proof.
  exists [bob_row], "bo", "bo@mail.com", "pw". split.
  { split; cbn; by apply (bool_decide_unpack _). }
  intros B hash. split.
  - rewrite run_create_user. cbn. by eexists.
  - unfold step. cbn [command]. rewrite run_create_user. cbn [store existsb].
    rewrite run_get_user_ok by plain_query.
    rewrite printed_users_listing. cbn [bob_row].
    unfold matching. cbn.
    rewrite (contains_infix "bo" "" "b"), (contains_self "bo") by plain_query.
    done.
Qed.

(** C3 at work: "alice" is created, bob changes his email, and alice is
    found. *)
Lemma created_user_is_found_witness :
  let t := [bob_row; bobby_row] in
  let row := mkUser (Some 3) "alice" "alice@mail.com" (tagged_hash "pw") in
  let cs := [ChangeEmail "bob" "bob@new.com"; DeleteUser "bobby"] in
  let t' := @steps sqlite tagged_hash
              (@step sqlite tagged_hash t
                 (CreateUser "alice" "alice@mail.com" "pw")) cs in
  let o := run (@get_user sqlite "alice") t' in
  @query_ok sqlite "alice" = true /\ @escape_free sqlite "alice" = true /\
  store_ok t /\
  printed (run (create_user tagged_hash "alice" "alice@mail.com" "pw") t)
    = [OutUser row] /\
  result o = Returned tt /\
  exists r,
    In r (printed_users o) /\
    List.filter (fun x => String.eqb (username x) "alice") (printed_users o)
      = [r] /\
    username r = "alice" /\ id r = id row.
Proof.
  cbv zeta. do 2 (split; [reflexivity|]).
  split; [apply example_store_ok|]. split; [reflexivity|].
  apply (@created_user_is_found sqlite tagged_hash [bob_row; bobby_row]
           "alice" "alice@mail.com" "pw"
           (mkUser (Some 3) "alice" "alice@mail.com" (tagged_hash "pw"))
           [ChangeEmail "bob" "bob@new.com"; DeleteUser "bobby"]
           eq_refl eq_refl example_store_ok eq_refl).
  repeat constructor; discriminate.
Defined.







(** * More of the commands *)

(** ** Facts about strings, lists and the table used below *)

Lemma prefix_split (q s : string) :
  String.prefix q s = true -> exists b, s = q +:+ b.
Proof.
  revert s. induction q as [|c q IH]; intros s Hp.
  - by exists s.
  - destruct s as [|d s]; [done|]. cbn in Hp.
    destruct (ascii_dec c d) as [->|]; [|done].
    destruct (IH s Hp) as (b & ->). by exists b.
Qed.

Lemma is_substring_split (q s : string) :
  is_substring q s = true -> exists a b, s = a +:+ q +:+ b.
Proof.
  induction s as [|d s IH]; intros Hs; cbn [is_substring] in Hs.
  - apply orb_true_iff in Hs as [Hp|]; [|done].
    apply prefix_split in Hp as (b & Hb). by exists "", b.
  - apply orb_true_iff in Hs as [Hp|Hs].
    + apply prefix_split in Hp as (b & Hb). by exists "", b.
    + destruct (IH Hs) as (a & b & ->). by exists (String d a), b.
Qed.

Lemma firstn_add {A} (n m : nat) (l : list A) :
  firstn (n + m) l = firstn n l ++ firstn m (skipn n l).
Proof.
  revert l. induction n as [|n IH]; intros l; [done|].
  destruct l as [|a l]; cbn; [by rewrite firstn_nil|]. by rewrite IH.
Qed.

Lemma skipn_add {A} (n m : nat) (l : list A) :
  skipn (n + m) l = skipn m (skipn n l).
Proof.
  revert l. induction n as [|n IH]; intros l; [done|].
  destruct l as [|a l]; cbn; [by rewrite skipn_nil|]. apply IH.
Qed.

Lemma listing_not_nil (rows : list User) : listing rows <> [].
Proof. by destruct rows. Qed.

Lemma update_row_error (key : option nat) (u : User) (t : list User) (e : Exn) :
  update_row key u t = inl e -> e = IntegrityError.
Proof. unfold update_row. destruct (existsb _ t); congruence. Qed.

Lemma update_row_length (key : option nat) (u : User) (t t' : list User) :
  update_row key u t = inr t' -> length t' = length t.
Proof.
  unfold update_row. destruct (existsb _ t); [done|].
  intros [= <-]. apply length_map.
Qed.

Lemma filter_sublist {A} (p : A -> bool) (l : list A) :
  sublist (List.filter p l) l.
Proof.
  induction l as [|a l IH]; cbn; [constructor|].
  destruct (p a); by constructor.
Qed.

Lemma filter_nothing {A} (p : A -> bool) (l : list A) :
  (forall x, In x l -> p x = false) -> List.filter p l = [].
Proof.
  induction l as [|a l IH]; cbn; intros Hall; [done|].
  rewrite (Hall a) by (by left). apply IH. intros x Hx. apply Hall. by right.
Qed.

Lemma filter_everything {A} (p : A -> bool) (l : list A) :
  (forall x, In x l -> p x = true) -> List.filter p l = l.
Proof.
  induction l as [|a l IH]; cbn; intros Hall; [done|].
  rewrite (Hall a) by (by left). f_equal. apply IH. intros x Hx.
  apply Hall. by right.
Qed.

Section LikeMore.
Context `{Backend}.

Lemma contains_empty (s : string) : contains "" s = true.
Proof.
  rewrite contains_eq. apply like_percent_here, like_percent_all.
Qed.

(** A literal occurrence is a match, wildcards in the query or not, as long
    as the query holds no escape character. *)
Lemma contains_literal (q s : string) :
  escape_free q = true -> is_substring q s = true -> contains q s = true.
Proof.
  intros He (a & b & ->)%is_substring_split. by apply contains_infix.
Qed.

End LikeMore.

Section Extras.
Context `{Backend}.
Variable hash_password : string -> string.

(** ** Reading *)

(** X1: [get_user] only reads, also when the store refuses the query:
    whatever the query and the table, the table is what it was, the one
    call on the database is the query, and the records printed are rows of
    the table, in stored order, none of them twice on a well-formed table.
    It returns exactly when the store's [LIKE] takes the pattern or there is
    no row to test it on; otherwise it ends with the store's error and has
    printed nothing. *)
Theorem get_user_reads_only (q : string) (t : list User) :
  let o := run (get_user q) t in
  store o = t /\
  db_calls o = [CallExec] /\
  sublist (printed_users o) t /\
  (store_ok t -> NoDup (map id (printed_users o))) /\
  (result o = Returned tt <-> query_ok q = true \/ t = []) /\
  (result o <> Returned tt -> result o = Raised StoreError /\ printed o = []).
Proof.
  cbn zeta. rewrite run_get_user.
  destruct (query_ok q) eqn:Hq; cbn [orb];
    [|destruct (bool_decide_reflect (t = [])) as [Ht|Ht]].
  - rewrite printed_users_listing. cbn. do 2 (split; [done|]).
    split; [apply filter_sublist|].
    split; [intros [_ Hi _ _]; by apply NoDup_map_filter|].
    split; [split; auto|done].
  - rewrite printed_users_listing. cbn. do 2 (split; [done|]).
    split; [apply filter_sublist|].
    split; [intros [_ Hi _ _]; by apply NoDup_map_filter|].
    split; [split; auto|done].
  - cbn. do 2 (split; [done|]). split; [apply sublist_nil_l|].
    split; [intros _; constructor|].
    split; [|done]. split; [done|]. by intros [|].
Qed.

(** X2: [get_all_users] only reads, whatever the limit and the offset, also
    when the store refuses the statement: the table is what it was and the
    one call on the database is the query; when the command fails nothing
    has been printed. *)
Theorem get_all_users_reads_only (limit_opt offset_opt : option Z)
    (t : list User) :
  let o := run (get_all_users limit_opt offset_opt) t in
  store o = t /\
  db_calls o = [CallExec] /\
  (result o <> Returned tt -> printed o = []).
Proof.
  cbn zeta. rewrite run_get_all_users.
  destruct (page limit_opt offset_opt t); cbn; repeat split; auto. done.
Qed.

(** X3: pages fit together.  For an offset [k] and limits [n] and [m] that
    are counts (not negative, and within 64 bits), as are [k + n] and
    [n + m], the page of [n] rows at offset [k] followed by the page of [m]
    rows at offset [k + n] is the page of [n + m] rows at offset [k]: paging
    through the table with consecutive offsets shows every row once, in
    stored order. *)
Theorem get_all_users_pages_compose (t : list User) (k n m : Z) :
  is_count k -> is_count n -> is_count m ->
  is_count (k + n) -> is_count (n + m) ->
  printed_users (run (get_all_users (Some n) (Some k)) t) ++
  printed_users (run (get_all_users (Some m) (Some (k + n)%Z)) t) =
  printed_users (run (get_all_users (Some (n + m)%Z) (Some k)) t).
Proof.
  intros Hk Hn Hm Hkn Hnm. rewrite !run_get_all_users.
  rewrite !page_counts by done. rewrite !printed_users_listing.
  destruct Hk as [Hk _], Hn as [Hn _], Hm as [Hm _].
  rewrite (Z2Nat.inj_add k n), (Z2Nat.inj_add n m) by lia.
  by rewrite firstn_add, skipn_add.
Qed.

(** X4: the edges of a page, for a limit and an offset that are counts (not
    negative, and within 64 bits).  With a limit of 0, or an offset that is
    at least the number of rows, [get_all_users] prints "No users found";
    with offset 0 and a limit that is at least the number of rows it prints
    the whole table. *)
Theorem get_all_users_edges (t : list User) (limit offset : Z) :
  is_count limit -> is_count offset ->
  let o := run (get_all_users (Some limit) (Some offset)) t in
  (limit = 0%Z \/ (Z.of_nat (length t) <= offset)%Z ->
   printed o = [OutLine "No users found"]) /\
  (offset = 0%Z -> (Z.of_nat (length t) <= limit)%Z ->
   printed o = listing t).
Proof.
  intros Hl Ho. cbn zeta. rewrite run_get_all_users.
  rewrite page_counts by done. cbn [printed].
  destruct Hl as [Hl _], Ho as [Ho _]. split.
  - intros [->|Hlen]; [done|].
    rewrite skipn_all2 by lia. by rewrite firstn_nil.
  - intros -> Hlen. change (Z.to_nat 0) with 0%nat. rewrite skipn_O.
    by rewrite firstn_all2 by lia.
Qed.

(** X5: the empty query matches every row, so [get_user ""] prints the
    whole table; and on the empty table every query prints "No users
    found". *)
Theorem get_user_empty_edges (q : string) (t : list User) :
  printed (run (get_user "") t) = listing t /\
  printed (run (get_user q) []) = [OutLine "No users found"].
Proof.
  split.
  - rewrite run_get_user_ok by (apply query_ok_short; by vm_compute).
    cbn [printed]. f_equal.
    unfold matching. induction t as [|r t IH]; cbn; [done|].
    by rewrite contains_empty, IH.
  - rewrite run_get_user.
    rewrite (bool_decide_eq_true_2 ([] = [])) by done.
    by rewrite orb_true_r.
Qed.

(** X6: [get_user] misses no literal match.  For a query that the store's
    [LIKE] takes (its pattern is not longer than [LIKE] allows) and that
    holds no escape character, a row whose username or email contains the
    query character for character is printed, whatever wildcards the query
    holds and however the back end compares characters. *)
Theorem get_user_finds_literal (q : string) (t : list User) (r : User) :
  query_ok q = true -> escape_free q = true ->
  In r t ->
  is_substring q (username r) = true \/ is_substring q (email r) = true ->
  In r (printed_users (run (get_user q) t)).
Proof.
  intros Hq He Hin Hsub. rewrite run_get_user_ok by done.
  rewrite printed_users_listing.
  apply filter_In. split; [done|]. apply orb_true_iff.
  destruct Hsub as [Hs|Hs]; [left|right]; by apply contains_literal.
Qed.

(** X21: a ["%"] as the query is a wildcard, not a character to look for:
    [get_user "%"] prints the whole table, whatever the usernames and
    emails are. *)
Theorem get_user_percent (t : list User) :
  printed (run (get_user "%") t) = listing t /\
  printed_users (run (get_user "%") t) = t.
Proof.
  rewrite run_get_user_ok by (apply query_ok_short; by vm_compute).
  rewrite printed_users_listing. cbn [printed].
  assert (matching "%" t = t) as ->; [|done].
  apply filter_everything. intros r _. by rewrite contains_percent.
Qed.

(** ** Writing *)

Lemma run_delete_user_absent (t : list User) (u : string) :
  (forall r, In r t -> username r <> u) ->
  run (delete_user u) t =
  mkOutcome (Returned tt) t
    [OutLine (u +:+ " not found! Unable to delete user.")] [CallExec].
Proof.
  intros Hno. rewrite run_delete_user.
  apply by_username_None in Hno. by rewrite Hno.
Qed.

Lemma run_create_user_fresh (t : list User) (u e p : string) :
  (forall r, In r t -> username r <> u /\ email r <> e) ->
  run (create_user hash_password u e p) t =
  let row := mkUser (Some (next_id t)) u e (hash_password p) in
  mkOutcome (Returned tt) (t ++ [row]) [OutUser row] [CallAdd; CallCommit].
Proof.
  intros Hfree. rewrite run_create_user.
  replace (existsb _ t) with false; [done|].
  symmetry. apply existsb_false. intros x Hx. apply clashes_false.
  by apply Hfree.
Qed.

(** The row of [u] with the email [e], every other row as it is. *)
Lemma run_change_email_free (t : list User) (u e : string) (r : User) :
  store_ok t -> In r t -> username r = u ->
  (forall x, In x t -> email x = e -> x = r) ->
  run (change_email u e) t =
  mkOutcome (Returned tt)
    (map (fun x => if String.eqb (username x) u then with_email e x else x) t)
    [OutLine (updated_message (with_email e r))]
    [CallExec; CallAdd; CallCommit].
Proof.
  intros [Hk Hi Hun Hem] Hr Hu Hfree. rewrite run_change_email.
  rewrite (by_username_unique u t r) by done. cbn zeta.
  assert (forall x, In x t -> String.eqb (username x) u = same_key (id r) x)
    as Hsame.
  { intros x Hx. destruct (String.eqb_spec (username x) u) as [Hxu|Hxu].
    - symmetry. apply same_key_true. f_equal.
      apply (map_inj_on username t); congruence.
    - symmetry. apply same_key_false. intros Hid. apply Hxu.
      rewrite <- Hu. f_equal. by apply (map_inj_on id t). }
  destruct (decide (with_email e r = r)) as [Heq|Hneq].
  - f_equal. rewrite <- (map_id t) at 1. apply map_ext_in. intros x Hx.
    rewrite (Hsame x Hx). destruct (same_key (id r) x) eqn:Hs; [|done].
    apply same_key_true in Hs.
    assert (x = r) as -> by (by apply (map_inj_on id t)). done.
  - unfold update_row. replace (existsb _ t) with false.
    + f_equal. apply map_ext_in. intros x Hx. rewrite (Hsame x Hx).
      destruct (same_key (id r) x) eqn:Hs; [|done].
      apply same_key_true in Hs.
      assert (x = r) as -> by (by apply (map_inj_on id t)). done.
    + symmetry. apply existsb_false. intros x Hx.
      destruct (same_key (id r) x) eqn:Hs; [done|]. cbn.
      apply same_key_false in Hs. apply clashes_false. cbn. split.
      * intros Hxu. apply Hs. f_equal. by apply (map_inj_on username t).
      * intros Hxe. apply Hs. f_equal. by apply Hfree.
Qed.

(** X7: [delete_user] for a username no row has leaves the table as it is,
    prints the not-found line, does not commit and returns, which is exit
    code 0. *)
Theorem delete_user_absent (t : list User) (u : string) :
  (forall r, In r t -> username r <> u) ->
  let o := run (delete_user u) t in
  store o = t /\
  printed o = [OutLine (u +:+ " not found! Unable to delete user.")] /\
  db_calls o = [CallExec] /\
  result o = Returned tt /\
  exit_code o = 0%Z.
Proof.
  intros Hno. cbn zeta. by rewrite run_delete_user_absent.
Qed.

(** X8: [create_user] with a username and an email no row has: the new row
    goes last, behind the rows that were there, with a key no row has, the
    username and the email as given and the hash in place of the password;
    the command prints that record, commits without rolling back and
    returns. *)
Theorem create_user_fresh (t : list User) (u e p : string) :
  (forall r, In r t -> username r <> u /\ email r <> e) ->
  let o := run (create_user hash_password u e p) t in
  exists row,
    store o = t ++ [row] /\
    printed o = [OutUser row] /\
    db_calls o = [CallAdd; CallCommit] /\
    result o = Returned tt /\
    username row = u /\ email row = e /\ password row = hash_password p /\
    is_Some (id row) /\
    (forall r, In r t -> id r <> id row).
Proof.
  intros Hfree. cbn zeta. rewrite run_create_user_fresh by done. cbn zeta.
  eexists. do 4 (split; [reflexivity|]). cbn.
  do 3 (split; [reflexivity|]). split; [by eexists|].
  intros r Hr Hid. apply (next_id_fresh t). rewrite <- Hid. by apply in_map.
Qed.

(** X9: whatever it is given, [create_user] returns (the [IntegrityError]
    never leaves it) and leaves the rows that were in the table as they
    were, in their places: the table afterwards is the table before with at
    most one row behind it. *)
Theorem create_user_keeps_rows (t : list User) (u e p : string) :
  let o := run (create_user hash_password u e p) t in
  result o = Returned tt /\
  exit_code o = 0%Z /\
  exists added, store o = t ++ added /\ length added <= 1.
Proof.
  cbn zeta. rewrite run_create_user. destruct (existsb _ t); cbn.
  - do 2 (split; [done|]). exists [].
    split; [by rewrite app_nil_r | cbn; lia].
  - do 2 (split; [done|]). eexists [_].
    split; [reflexivity | cbn; lia].
Qed.

Lemma with_email_back (e : string) (r : User) :
  with_email (email r) (with_email e r) = r.
Proof. by destruct r. Qed.

(** After [delete_user u] on a well-formed table no row has the username. *)
Lemma delete_user_clears (t : list User) (u : string) :
  store_ok t ->
  forall x, In x (step hash_password t (DeleteUser u)) ->
            In x t /\ username x <> u.
Proof.
  intros Hok x. unfold step. cbn [command]. rewrite run_delete_user.
  destruct (by_username u t) as [r|] eqn:Hb; cbn.
  - apply by_username_Some in Hb as [Hr Hu].
    rewrite (delete_row_by_username t u r) by done.
    intros [Hx Hne]%filter_In. split; [done|].
    by apply negb_true_iff, String.eqb_neq in Hne.
  - intros Hx. split; [done|]. rewrite by_username_None in Hb. by apply Hb.
Qed.

(** X10: [create_user] and then [delete_user] of the same username give the
    table back: when no row has the username or the email, the row that is
    added is the row that is removed, and nothing else moves. *)
Theorem create_then_delete_restores (t : list User) (u e p : string) :
  (forall r, In r t -> username r <> u /\ email r <> e) ->
  steps hash_password t [CreateUser u e p; DeleteUser u] = t.
Proof.
  intros Hfree. cbn [steps fold_left]. unfold step at 2. cbn [command].
  rewrite run_create_user_fresh by done. cbn [store].
  unfold step. cbn [command]. rewrite run_delete_user.
  assert (by_username u (t ++ [mkUser (Some (next_id t)) u e (hash_password p)])
          = Some (mkUser (Some (next_id t)) u e (hash_password p))) as ->.
  { unfold by_username. rewrite List.filter_app, filter_nothing.
    - cbn. by rewrite String.eqb_refl.
    - intros x Hx. apply String.eqb_neq. by apply Hfree. }
  cbn [store id]. unfold delete_row. rewrite List.filter_app.
  rewrite filter_everything.
  - cbn. replace (same_key _ _) with true; [by rewrite app_nil_r|].
    symmetry. by apply same_key_true.
  - intros x Hx. apply negb_true_iff, same_key_false. intros Hid.
    apply (next_id_fresh t). rewrite <- Hid. by apply in_map.
Qed.

(** X11: [delete_user] twice is [delete_user] once: on a well-formed table
    the second call finds nobody, prints the not-found line and leaves the
    table as the first call left it; so does a [change_email] for that
    username. *)
Theorem delete_user_twice (t : list User) (u e : string) :
  store_ok t ->
  let t' := step hash_password t (DeleteUser u) in
  step hash_password t' (DeleteUser u) = t' /\
  printed (run (delete_user u) t')
    = [OutLine (u +:+ " not found! Unable to delete user.")] /\
  run (change_email u e) t'
    = mkOutcome (Returned tt) t'
        [OutLine (u +:+ " not found! Unable to update email.")] [CallExec].
Proof.
  intros Hok t'.
  assert (forall x, In x t' -> username x <> u) as Hgone.
  { intros x Hx. by apply (delete_user_clears t u Hok). }
  unfold step at 1. cbn [command].
  rewrite run_delete_user_absent by done. cbn. do 2 (split; [done|]).
  rewrite run_change_email. apply by_username_None in Hgone.
  by rewrite Hgone.
Qed.

(** X12: [change_email] to an email no other row has succeeds: on a
    well-formed table with a row for the username, the command returns,
    prints the line with the username and the new email, and the table is
    the old one with that row's email replaced.  Giving a user the email the
    row already has is such a case. *)
Theorem change_email_free (t : list User) (u e : string) (r : User) :
  store_ok t -> In r t -> username r = u ->
  (forall x, In x t -> email x = e -> x = r) ->
  let o := run (change_email u e) t in
  result o = Returned tt /\
  exit_code o = 0%Z /\
  printed o = [OutLine ("Updated " +:+ u +:+ "'s email to " +:+ e)] /\
  db_calls o = [CallExec; CallAdd; CallCommit] /\
  store o =
    map (fun x => if String.eqb (username x) u then with_email e x else x) t.
Proof.
  intros Hok Hr Hu Hfree. cbn zeta.
  rewrite (run_change_email_free t u e r) by done. cbn.
  repeat split; auto. unfold updated_message. cbn. by rewrite Hu.
Qed.

(** X13: [change_email] for a username the table has fails in one case
    only: it ends with [IntegrityError] exactly when a row of another user
    has the new email, and it never ends with another exception. *)
Theorem change_email_fails_iff (t : list User) (u e : string) (r : User) :
  store_ok t -> In r t -> username r = u ->
  let o := run (change_email u e) t in
  (result o = Raised IntegrityError <->
   exists other, In other t /\ username other <> u /\ email other = e) /\
  result o <> Raised StoreError.
Proof.
  intros Hok Hr Hu. cbn zeta.
  destruct (existsb (fun x => negb (String.eqb (username x) u)
                              && String.eqb (email x) e) t) eqn:Hex.
  - apply existsb_exists in Hex as (other & Hother & Hcond).
    apply andb_true_iff in Hcond as [Hne He].
    apply negb_true_iff, String.eqb_neq in Hne. apply String.eqb_eq in He.
    rewrite (run_change_email_clash t u e r other) by done. cbn.
    split; [|done]. split; [|done]. intros _. by exists other.
  - rewrite existsb_false in Hex.
    assert (forall x, In x t -> email x = e -> x = r) as Hfree.
    { intros x Hx He. specialize (Hex x Hx).
      apply andb_false_iff in Hex as [Hex|Hex].
      - apply negb_false_iff, String.eqb_eq in Hex.
        destruct Hok as [_ _ Hun _].
        apply (map_inj_on username t); congruence.
      - apply String.eqb_neq in Hex. done. }
    rewrite (run_change_email_free t u e r) by done. cbn.
    split; [|done]. split; [done|].
    intros (other & Hother & Hne & He). exfalso. apply Hne.
    by rewrite (Hfree other Hother He).
Qed.

(** X14: changing an email and changing it back gives the table back: on a
    well-formed table, for a username it has and a new email no row has,
    [change_email u e] followed by [change_email u old], with [old] the
    email the row had, leaves every row as it was. *)
Theorem change_email_and_back (t : list User) (u e : string) (r : User) :
  store_ok t -> In r t -> username r = u ->
  (forall x, In x t -> email x <> e) ->
  steps hash_password t [ChangeEmail u e; ChangeEmail u (email r)] = t.
Proof.
  intros Hok Hr Hu Hfree.
  pose proof (step_ok hash_password t (ChangeEmail u e) Hok) as Hok1.
  cbn [steps fold_left]. unfold step in Hok1. unfold step at 2.
  cbn [command] in *.
  assert (forall x, In x t -> email x = e -> x = r) as Hfree'
    by (by intros x Hx He; destruct (Hfree x Hx)).
  pose proof (run_change_email_free t u e r Hok Hr Hu Hfree') as E1.
  rewrite E1 in Hok1 |- *. clear E1. cbn [store] in *. set (f := fun x : User => _) in *.
  assert (f r = with_email e r) as Hfr.
  { unfold f. by rewrite Hu, String.eqb_refl. }
  assert (forall x, In x t -> x <> r -> f x = x) as Hfx.
  { intros x Hx Hne. unfold f.
    destruct (String.eqb_spec (username x) u) as [Hxu|]; [|done].
    destruct Hne. destruct Hok as [_ _ Hun _].
    apply (map_inj_on username t); congruence. }
  unfold step. cbn [command].
  rewrite (run_change_email_free (map f t) u (email r) (with_email e r)).
  - cbn [store]. rewrite map_map. rewrite <- (map_id t) at 2.
    apply map_ext_in. intros x Hx.
    destruct (decide (x = r)) as [->|Hne].
    + rewrite Hfr. cbn. rewrite Hu, String.eqb_refl. apply with_email_back.
    + rewrite (Hfx x Hx Hne).
      destruct (String.eqb_spec (username x) u) as [Hxu|]; [|done].
      destruct Hne. destruct Hok as [_ _ Hun _].
      apply (map_inj_on username t); congruence.
  - done.
  - rewrite <- Hfr. by apply in_map.
  - done.
  - intros y (x & <- & Hx)%in_map_iff Hy.
    destruct (decide (x = r)) as [->|Hne]; [done|].
    rewrite (Hfx x Hx Hne) in Hy |- *. destruct Hne.
    destruct Hok as [_ _ _ Hem]. by apply (map_inj_on email t).
Qed.

(** X15: after a [change_email] that succeeds, [get_user] with the new
    email finds the user: when the store's [LIKE] takes the new email as a
    query and it holds no escape character, the row of the username, with
    the new email, is among the records printed. *)
Theorem change_email_then_get_user (t : list User) (u e : string) (r : User) :
  query_ok e = true -> escape_free e = true ->
  store_ok t -> In r t -> username r = u ->
  (forall x, In x t -> email x = e -> x = r) ->
  let o := run (get_user e) (step hash_password t (ChangeEmail u e)) in
  result o = Returned tt /\
  In (with_email e r) (printed_users o).
Proof.
  intros Hq He Hok Hr Hu Hfree. cbn zeta. unfold step. cbn [command].
  rewrite (run_change_email_free t u e r) by done. cbn [store].
  rewrite run_get_user_ok by done. split; [done|].
  rewrite printed_users_listing. apply filter_In. split.
  - apply in_map_iff. exists r. split; [|done].
    by rewrite Hu, String.eqb_refl.
  - cbn. rewrite (contains_self e) by done. apply orb_true_r.
Qed.

(** X16: deleting frees the username: on a well-formed table, after
    [delete_user u] a [create_user] with the username [u], and an email no
    other row has, succeeds and prints the new record. *)
Theorem delete_then_create (t : list User) (u e p : string) (r : User) :
  store_ok t -> In r t -> username r = u ->
  (forall x, In x t -> email x = e -> x = r) ->
  let t' := step hash_password t (DeleteUser u) in
  let o := run (create_user hash_password u e p) t' in
  exists row,
    printed o = [OutUser row] /\ store o = t' ++ [row] /\
    username row = u /\ email row = e /\
    result o = Returned tt.
Proof.
  intros Hok Hr Hu Hfree t' o. subst o.
  rewrite run_create_user_fresh.
  - cbn zeta. eexists. by repeat split.
  - intros x Hx. destruct (delete_user_clears t u Hok x Hx) as [Hxt Hxu].
    split; [done|]. intros He. apply Hxu.
    by rewrite (Hfree x Hxt He).
Qed.

(** ** Every command *)

Lemma delete_row_split (t : list User) (r : User) :
  NoDup (map id t) -> In r t ->
  exists l1 l2, t = l1 ++ r :: l2 /\ delete_row (id r) t = l1 ++ l2.
Proof.
  intros Hi Hr. apply in_split in Hr as (l1 & l2 & ->).
  exists l1, l2. split; [done|].
  rewrite map_app in Hi. cbn in Hi. apply NoDup_middle in Hi as [Hnot _].
  rewrite <- map_app in Hnot.
  assert (forall l, (forall x, In x l -> In x (l1 ++ l2)) ->
            List.filter (fun x => negb (same_key (id r) x)) l = l) as Hkeep.
  { intros l Hsub. apply filter_everything. intros x Hx.
    apply negb_true_iff, same_key_false. intros Hid. apply Hnot.
    rewrite <- Hid. by apply in_map, Hsub. }
  unfold delete_row. rewrite List.filter_app. cbn.
  replace (same_key (id r) r) with true by (symmetry; by apply same_key_true).
  cbn. rewrite !Hkeep; [done| |]; intros x Hx; apply in_app_iff; auto.
Qed.

(** X22: [delete_user] for a username a row of a well-formed table has:
    that row is taken out and the rows before and behind it stay in their
    places; the command calls [delete] and [commit], prints the line with
    the username and returns, which is exit code 0. *)
Theorem delete_user_frame (t : list User) (u : string) (r : User) :
  store_ok t -> In r t -> username r = u ->
  let o := run (delete_user u) t in
  result o = Returned tt /\
  exit_code o = 0%Z /\
  printed o = [OutLine (u +:+ " deleted")] /\
  db_calls o = [CallExec; CallDelete; CallCommit] /\
  exists l1 l2, t = l1 ++ r :: l2 /\ store o = l1 ++ l2.
Proof.
  intros [Hk Hi Hun Hem] Hr Hu. cbn zeta. rewrite run_delete_user.
  rewrite (by_username_unique u t r) by done. cbn.
  do 4 (split; [done|]). by apply delete_row_split.
Qed.

(** X17: which commands can fail, and how.  [initialize], [create_user] and
    [delete_user] return on every table, whatever they are given.
    [change_email] returns or ends with [IntegrityError].  [get_user] ends
    with the store's error exactly when the pattern is longer than the
    store's [LIKE] allows and there is a row to test it on, and returns
    otherwise.  [get_all_users] returns when its limit and offset are counts
    (not negative, and within 64 bits), and ends with the store's error
    when one of them does not fit 64 bits. *)
Theorem commands_that_return (c : Command) (t : list User) :
  let o := run (command hash_password c) t in
  match c with
  | GetUser q =>
      (result o = Raised StoreError <-> query_ok q = false /\ t <> []) /\
      (result o = Returned tt <-> query_ok q = true \/ t = [])
  | GetAllUsers limit_opt offset_opt =>
      (is_count (default 10%Z limit_opt) ->
       is_count (default 0%Z offset_opt) -> result o = Returned tt) /\
      (fits_int64 (default 10%Z limit_opt)
       && fits_int64 (default 0%Z offset_opt) = false ->
       result o = Raised StoreError)
  | ChangeEmail _ _ =>
      result o = Returned tt \/ result o = Raised IntegrityError
  | Initialize | CreateUser _ _ _ | DeleteUser _ =>
      result o = Returned tt
  end.
Proof.
  cbn zeta. destruct c as [|q|l o|u e|u e p|u]; cbn [command].
  - by rewrite run_initialize.
  - rewrite run_get_user.
    destruct (query_ok q); cbn [orb];
      [|destruct (bool_decide_reflect (t = [])) as [Ht|Ht]]; cbn.
    + intuition congruence.
    + intuition congruence.
    + intuition congruence.
  - rewrite run_get_all_users. split.
    + intros Hl Ho.
      replace (page l o t)
        with (page (Some (default 10%Z l)) (Some (default 0%Z o)) t)
        by (by destruct l, o).
      by rewrite page_counts.
    + intros Hfit. unfold page, run_select. cbn.
      rewrite andb_comm in Hfit. by rewrite Hfit.
  - rewrite run_change_email. destruct (by_username u t) as [r|]; [|by left].
    cbn zeta. destruct (decide _); [by left|].
    destruct (update_row _ _ t) as [err|t'] eqn:Hup; [|by left].
    right. cbn. f_equal. by eapply update_row_error.
  - rewrite run_create_user. by destruct (existsb _ t).
  - rewrite run_delete_user. by destruct (by_username u t).
Qed.

(** X18: a command that returns has printed something, and a command that
    ends with an exception has printed nothing: there is no silent success
    and no partial output. *)
Theorem prints_iff_returns (c : Command) (t : list User) :
  let o := run (command hash_password c) t in
  match result o with
  | Returned _ => printed o <> []
  | Raised _ => printed o = []
  end.
Proof.
  cbn zeta. destruct c as [|q|l o|u e|u e p|u]; cbn [command].
  - by rewrite run_initialize.
  - rewrite run_get_user. destruct (_ || _); cbn; [|done].
    apply listing_not_nil.
  - rewrite run_get_all_users. destruct (page l o t); cbn; [done|].
    apply listing_not_nil.
  - rewrite run_change_email. destruct (by_username u t) as [r|]; [|done].
    cbn zeta. destruct (decide _); [done|].
    by destruct (update_row _ _ t).
  - rewrite run_create_user. by destruct (existsb _ t).
  - rewrite run_delete_user. by destruct (by_username u t).
Qed.

(** X19: rows keep their identity, and only [change_email] changes a row,
    and only its email.  On a well-formed table, after any command but
    [initialize], every row of the table is a row that was there before,
    the same in every field; or, after [change_email u e], the row that had
    the username [u], with the email [e] and its id, username and password
    as they were; or, after [create_user u e p], the new row, with the
    username, the email and the hash of the password, under a key no row
    had. *)
Theorem rows_keep_identity (c : Command) (t : list User) (r' : User) :
  store_ok t -> c <> Initialize ->
  In r' (step hash_password t c) ->
  In r' t \/
  (exists u e r, c = ChangeEmail u e /\ In r t /\ username r = u /\
                 r' = with_email e r /\
                 id r' = id r /\ username r' = username r /\
                 password r' = password r /\ email r' = e) \/
  (exists u e p, c = CreateUser u e p /\
                 r' = mkUser (id r') u e (hash_password p) /\
                 is_Some (id r') /\ ~ In (id r') (map id t)).
Proof.
  intros Hok Hinit. unfold step.
  destruct c as [|q|l o|u e|u e p|u]; cbn [command]; [done|..].
  - rewrite run_get_user. destruct (_ || _); cbn; auto.
  - rewrite run_get_all_users. destruct (page l o t); cbn; auto.
  - rewrite run_change_email.
    destruct (by_username u t) as [r|] eqn:Hb; [|cbn; auto].
    apply by_username_Some in Hb as [Hr Hu]. cbn zeta.
    destruct (decide _); [cbn; auto|].
    destruct (update_row _ _ t) as [err|t'] eqn:Hup; [cbn; auto|].
    destruct Hok as [_ Hi _ _].
    destruct (update_row_split _ _ _ _ Hi Hr Hup) as (l1 & l2 & -> & -> & _).
    cbn. intros Hr'.
    apply in_app_iff in Hr' as [Hr'|[<-|Hr']].
    + left. apply in_app_iff. by left.
    + right. left. exists u, e, r. by repeat split.
    + left. apply in_app_iff. right. by right.
  - rewrite run_create_user. destruct (existsb _ t); [cbn; auto|].
    cbn. intros [Hr|[<-|[]]]%in_app_iff; [by left|].
    right. right. exists u, e, p. cbn.
    split; [done|]. split; [done|]. split; [by eexists|].
    apply next_id_fresh.
  - rewrite run_delete_user. destruct (by_username u t) as [r|]; [|cbn; auto].
    cbn. intros [Hr' _]%filter_In. by left.
Qed.

(** X20: how the number of rows moves.  On a well-formed table
    [initialize] leaves one row, [create_user] adds one row or none,
    [delete_user] removes exactly one row when the username is there and
    none otherwise, and the other commands leave the number as it is. *)
Theorem table_size (c : Command) (t : list User) :
  store_ok t ->
  let n := length (step hash_password t c) in
  match c with
  | Initialize => n = 1
  | CreateUser _ _ _ => n = length t \/ n = S (length t)
  | DeleteUser u =>
      match by_username u t with
      | Some _ => S n = length t
      | None => n = length t
      end
  | GetUser _ | GetAllUsers _ _ | ChangeEmail _ _ => n = length t
  end.
Proof.
  intros Hok. cbn zeta. unfold step.
  destruct c as [|q|l o|u e|u e p|u]; cbn [command].
  - by rewrite run_initialize.
  - rewrite run_get_user. by destruct (_ || _).
  - rewrite run_get_all_users. by destruct (page l o t).
  - rewrite run_change_email. destruct (by_username u t) as [r|]; [|done].
    cbn zeta. destruct (decide _); [done|].
    destruct (update_row _ _ t) as [err|t'] eqn:Hup; [done|].
    cbn. by eapply update_row_length.
  - rewrite run_create_user. destruct (existsb _ t); cbn; [by left|].
    right. rewrite length_app. cbn. lia.
  - rewrite run_delete_user. destruct (by_username u t) as [r|] eqn:Hb; [|done].
    apply by_username_Some in Hb as [Hr _]. cbn.
    destruct Hok as [_ Hi _ _].
    destruct (delete_row_split t r Hi Hr) as (l1 & l2 & -> & ->).
    rewrite !length_app. cbn. lia.
Qed.

End Extras.

(** ** The extras at work *)

(** X1 at work: "ob" on the table of bob and bobby. *)
Lemma get_user_reads_only_witness :
  let t := [bob_row; bobby_row] in
  let o := run (@get_user sqlite "ob") t in
  store_ok t /\ @query_ok sqlite "ob" = true /\
  store o = t /\ NoDup (map id (printed_users o)) /\ result o = Returned tt.
Proof.
  destruct (@get_user_reads_only sqlite "ob" [bob_row; bobby_row])
    as (Hs & _ & _ & Hn & Hr & _).
  cbv zeta. split; [apply example_store_ok|]. split; [reflexivity|].
  split; [exact Hs|]. split; [exact (Hn example_store_ok)|].
  apply Hr. by left.
Defined.

(** X2 at work: PostgreSQL refuses a limit of -1, and nothing is printed. *)
Lemma get_all_users_reads_only_witness :
  let t := [bob_row; bobby_row] in
  let o := run (@get_all_users postgresql (Some (-1)%Z) None) t in
  result o <> Returned tt /\ store o = t /\ printed o = [].
Proof.
  destruct (@get_all_users_reads_only postgresql (Some (-1)%Z) None
              [bob_row; bobby_row]) as (Hs & _ & Hp).
  cbv zeta. split; [discriminate|]. split; [exact Hs|].
  apply Hp. discriminate.
Defined.

(** X3 at work: two pages of one row make the page of two. *)
Lemma get_all_users_pages_compose_witness :
  let t := [bob_row; bobby_row] in
  (is_count 0 /\ is_count 1 /\ is_count (0 + 1) /\ is_count (1 + 1)) /\
  printed_users (run (@get_all_users sqlite (Some 1%Z) (Some 0%Z)) t) ++
  printed_users (run (@get_all_users sqlite (Some 1%Z) (Some (0 + 1)%Z)) t) =
  printed_users (run (@get_all_users sqlite (Some (1 + 1)%Z) (Some 0%Z)) t).
Proof.
  cbv zeta. split; [unfold is_count; lia|].
  apply (@get_all_users_pages_compose sqlite [bob_row; bobby_row] 0 1 1);
    unfold is_count; lia.
Defined.

(** X4 at work: an offset past the last row. *)
Lemma get_all_users_edges_witness :
  let t := [bob_row; bobby_row] in
  (is_count 10 /\ is_count 2 /\ (Z.of_nat (length t) <= 2)%Z) /\
  printed (run (@get_all_users sqlite (Some 10%Z) (Some 2%Z)) t)
    = [OutLine "No users found"].
Proof.
  assert (is_count 10) as Hl by (unfold is_count; lia).
  assert (is_count 2) as Ho by (unfold is_count; lia).
  cbv zeta. split; [split; [exact Hl|split; [exact Ho|cbn; lia]]|].
  apply (proj1 (@get_all_users_edges sqlite [bob_row; bobby_row] 10 2 Hl Ho)).
  right. cbn. lia.
Defined.

(** X6 at work: "b_b" occurs nowhere but in the username of b_b. *)
Lemma get_user_finds_literal_witness :
  let b_b := mkUser (Some 3) "b_b" "underscore@mail.com" (tagged_hash "pw") in
  let t := [bob_row; b_b] in
  (@query_ok sqlite "b_b" = true /\ @escape_free sqlite "b_b" = true /\
   In b_b t /\ is_substring "b_b" (username b_b) = true) /\
  In b_b (printed_users (run (@get_user sqlite "b_b") t)).
Proof.
  cbv zeta.
  split; [do 2 (split; [reflexivity|]); split; [right; by left | reflexivity]|].
  apply (@get_user_finds_literal sqlite);
    [reflexivity | reflexivity | right; by left | left; reflexivity].
Defined.

(** X7 at work: nobody is called "alice". *)
Lemma delete_user_absent_witness :
  let t := [bob_row; bobby_row] in
  let o := run (@delete_user sqlite "alice") t in
  (forall r, In r t -> username r <> "alice") /\
  store o = t /\
  printed o = [OutLine "alice not found! Unable to delete user."].
Proof.
  assert (forall r, In r [bob_row; bobby_row] -> username r <> "alice") as Hno.
  { intros r [<-|[<-|[]]]; discriminate. }
  destruct (@delete_user_absent sqlite [bob_row; bobby_row] "alice" Hno)
    as (Hs & Hp & _).
  cbv zeta. split; [exact Hno|]. split; [exact Hs | exact Hp].
Defined.

(** X8 at work: alice joins bob and bobby and gets the key 3. *)
Lemma create_user_fresh_witness :
  let t := [bob_row; bobby_row] in
  let o := run (create_user tagged_hash "alice" "alice@mail.com" "pw") t in
  (forall r, In r t -> username r <> "alice" /\ email r <> "alice@mail.com") /\
  exists row,
    store o = t ++ [row] /\ printed o = [OutUser row] /\
    db_calls o = [CallAdd; CallCommit] /\ result o = Returned tt /\
    username row = "alice" /\ email row = "alice@mail.com" /\
    password row = tagged_hash "pw" /\ is_Some (id row) /\
    (forall r, In r t -> id r <> id row).
Proof.
  assert (forall r, In r [bob_row; bobby_row] ->
            username r <> "alice" /\ email r <> "alice@mail.com") as Hfree.
  { intros r [<-|[<-|[]]]; split; discriminate. }
  cbv zeta. split; [exact Hfree|].
  exact (create_user_fresh tagged_hash [bob_row; bobby_row]
           "alice" "alice@mail.com" "pw" Hfree).
Defined.

(** X10 at work: alice comes and goes. *)
Lemma create_then_delete_restores_witness :
  let t := [bob_row; bobby_row] in
  (forall r, In r t -> username r <> "alice" /\ email r <> "alice@mail.com") /\
  @steps sqlite tagged_hash t
    [CreateUser "alice" "alice@mail.com" "pw"; DeleteUser "alice"] = t.
Proof.
  assert (forall r, In r [bob_row; bobby_row] ->
            username r <> "alice" /\ email r <> "alice@mail.com") as Hfree.
  { intros r [<-|[<-|[]]]; split; discriminate. }
  cbv zeta. split; [exact Hfree|].
  exact (@create_then_delete_restores sqlite tagged_hash [bob_row; bobby_row]
           "alice" "alice@mail.com" "pw" Hfree).
Defined.

(** X11 at work: bob is deleted twice. *)
Lemma delete_user_twice_witness :
  let t := [bob_row; bobby_row] in
  let t' := @step sqlite tagged_hash t (DeleteUser "bob") in
  store_ok t /\ t' = [bobby_row] /\
  @step sqlite tagged_hash t' (DeleteUser "bob") = t'.
Proof.
  destruct (@delete_user_twice sqlite tagged_hash [bob_row; bobby_row]
              "bob" "x@mail.com" example_store_ok) as (Hs & _).
  cbv zeta. split; [apply example_store_ok|]. split; [reflexivity | exact Hs].
Defined.

(** X12 at work: bob's new email. *)
Lemma change_email_free_witness :
  let t := [bob_row; bobby_row] in
  let o := run (@change_email sqlite "bob" "bob@new.com") t in
  (store_ok t /\ forall x, In x t -> email x = "bob@new.com" -> x = bob_row) /\
  result o = Returned tt /\
  printed o = [OutLine "Updated bob's email to bob@new.com"] /\
  store o = [with_email "bob@new.com" bob_row; bobby_row].
Proof.
  assert (forall x, In x [bob_row; bobby_row] ->
            email x = "bob@new.com" -> x = bob_row) as Hfree.
  { intros x [<-|[<-|[]]]; [done | discriminate]. }
  destruct (@change_email_free sqlite [bob_row; bobby_row] "bob" "bob@new.com"
              bob_row example_store_ok (or_introl eq_refl) eq_refl Hfree)
    as (Hr & _ & Hp & _ & Hs).
  cbv zeta. split; [split; [apply example_store_ok | exact Hfree]|].
  split; [exact Hr|]. split; [exact Hp | exact Hs].
Defined.

(** X13 at work: bob may not take bobby's email. *)
Lemma change_email_fails_iff_witness :
  let t := [bob_row; bobby_row] in
  store_ok t /\
  result (run (@change_email sqlite "bob" "rob@mail.com") t)
    = Raised IntegrityError.
Proof.
  cbv zeta. split; [apply example_store_ok|].
  apply (proj1 (@change_email_fails_iff sqlite [bob_row; bobby_row]
                  "bob" "rob@mail.com" bob_row example_store_ok
                  (or_introl eq_refl) eq_refl)).
  exists bobby_row. split; [right; by left|]. split; [discriminate | reflexivity].
Defined.

(** X14 at work: bob's email there and back. *)
Lemma change_email_and_back_witness :
  let t := [bob_row; bobby_row] in
  (store_ok t /\ forall x, In x t -> email x <> "bob@new.com") /\
  @steps sqlite tagged_hash t
    [ChangeEmail "bob" "bob@new.com"; ChangeEmail "bob" "bob@mail.com"] = t.
Proof.
  assert (forall x, In x [bob_row; bobby_row] -> email x <> "bob@new.com")
    as Hfree.
  { intros x [<-|[<-|[]]]; discriminate. }
  cbv zeta. split; [split; [apply example_store_ok | exact Hfree]|].
  exact (@change_email_and_back sqlite tagged_hash [bob_row; bobby_row]
           "bob" "bob@new.com" bob_row example_store_ok
           (or_introl eq_refl) eq_refl Hfree).
Defined.

(** X15 at work: bob is found under the new email. *)
Lemma change_email_then_get_user_witness :
  let t := [bob_row; bobby_row] in
  let o := run (@get_user sqlite "bob@new.com")
             (@step sqlite tagged_hash t (ChangeEmail "bob" "bob@new.com")) in
  (@query_ok sqlite "bob@new.com" = true /\
   @escape_free sqlite "bob@new.com" = true /\ store_ok t) /\
  result o = Returned tt /\
  In (with_email "bob@new.com" bob_row) (printed_users o).
Proof.
  cbv zeta.
  split; [do 2 (split; [reflexivity|]); apply example_store_ok|].
  apply (@change_email_then_get_user sqlite tagged_hash [bob_row; bobby_row]
           "bob" "bob@new.com" bob_row eq_refl eq_refl example_store_ok
           (or_introl eq_refl) eq_refl).
  intros x [<-|[<-|[]]]; [done | discriminate].
Defined.

(** X16 at work: a new bob after the old one. *)
Lemma delete_then_create_witness :
  let t := [bob_row; bobby_row] in
  let t' := @step sqlite tagged_hash t (DeleteUser "bob") in
  let o := run (create_user tagged_hash "bob" "bob@mail.com" "new") t' in
  store_ok t /\
  exists row,
    printed o = [OutUser row] /\ store o = t' ++ [row] /\
    username row = "bob" /\ email row = "bob@mail.com" /\
    result o = Returned tt.
Proof.
  cbv zeta. split; [apply example_store_ok|].
  apply (@delete_then_create sqlite tagged_hash [bob_row; bobby_row]
           "bob" "bob@mail.com" "new" bob_row example_store_ok
           (or_introl eq_refl) eq_refl).
  intros x [<-|[<-|[]]]; [done | discriminate].
Defined.

(** X17 at work: the default page always comes back. *)
Lemma commands_that_return_witness :
  (is_count (default 10%Z None) /\ is_count (default 0%Z None)) /\
  result (run (@command sqlite tagged_hash (GetAllUsers None None))
            [bob_row; bobby_row]) = Returned tt.
Proof.
  assert (is_count (default 10%Z None) /\ is_count (default 0%Z None)) as [Hl Ho]
    by (unfold is_count; cbn; lia).
  split; [by split|].
  exact (proj1 (@commands_that_return sqlite tagged_hash (GetAllUsers None None)
                  [bob_row; bobby_row]) Hl Ho).
Defined.

(** X19 at work: after bob's change of email, the rows are bobby's, as it
    was, and bob's, with the new email. *)
Lemma rows_keep_identity_witness :
  let t := [bob_row; bobby_row] in
  let c := ChangeEmail "bob" "bob@new.com" in
  let r' := with_email "bob@new.com" bob_row in
  (store_ok t /\ c <> Initialize /\ In r' (@step sqlite tagged_hash t c)) /\
  (In r' t \/
   (exists u e r, c = ChangeEmail u e /\ In r t /\ username r = u /\
                  r' = with_email e r /\
                  id r' = id r /\ username r' = username r /\
                  password r' = password r /\ email r' = e) \/
   (exists u e p, c = CreateUser u e p /\
                  r' = mkUser (id r') u e (tagged_hash p) /\
                  is_Some (id r') /\ ~ In (id r') (map id t))).
Proof.
  cbv zeta.
  split; [split; [apply example_store_ok|split; [discriminate|by left]]|].
  apply (@rows_keep_identity sqlite tagged_hash
           (ChangeEmail "bob" "bob@new.com") [bob_row; bobby_row]
           (with_email "bob@new.com" bob_row)
           example_store_ok); [discriminate | by left].
Defined.

(** X20 at work: deleting bob leaves one row of two. *)
Lemma table_size_witness :
  let t := [bob_row; bobby_row] in
  store_ok t /\
  S (length (@step sqlite tagged_hash t (DeleteUser "bob"))) = length t.
Proof.
  cbv zeta. split; [apply example_store_ok|].
  exact (@table_size sqlite tagged_hash (DeleteUser "bob")
           [bob_row; bobby_row] example_store_ok).
Defined.

(** X22 at work: bob goes, bobby stays where he was. *)
Lemma delete_user_frame_witness :
  let t := [bob_row; bobby_row] in
  let o := run (@delete_user sqlite "bob") t in
  store_ok t /\
  printed o = [OutLine "bob deleted"] /\
  exists l1 l2, t = l1 ++ bob_row :: l2 /\ store o = l1 ++ l2.
Proof.
  destruct (@delete_user_frame sqlite [bob_row; bobby_row] "bob" bob_row
              example_store_ok (or_introl eq_refl) eq_refl)
    as (_ & _ & Hp & _ & Hs).
  cbv zeta. split; [apply example_store_ok|]. split; [exact Hp | exact Hs].
Defined.
